(** * Boyer-Moore string search (bad-character rule): model and verification

    A shallow embedding of [Boyer_Moore/main.cpp]: the class [StringFinder]
    with its text, its pattern and the table [m_lastOccurrences], the
    preprocessing that fills the table, the two [search] member functions,
    the helper [max] and the test driver [main()].

    Conventions of the embedding.
    - [int] is a 32-bit two's-complement integer, carried as a [Z]; every
      conversion and arithmetic result goes through [to_int], which writes
      the wrap-around out. (C++ leaves signed overflow undefined; the
      theorems below are stated for lengths that fit an [int], where no
      operation of the program overflows.)
    - A [std::string] is a [list ascii]; [operator[]] is [string_at],
      which is undefined past the end of the string.
    - [int m_lastOccurrences[256]] is a [list Z]; reading or writing it at
      an index outside [0, 256) is undefined behaviour, reported as
      [TableOutOfBounds].
    - Whether plain [char] is signed is implementation-defined in C++; the
      model takes it as the parameter [char_signed] (true for the x86-64
      ABIs of GCC, Clang and MSVC, false for the Arm ABIs). It decides the
      integer a [char] promotes to when it is used as an array index.
    - Member functions are state transformers on [StringFinder]: they
      return the value together with the object as they leave it.
    - The two [while] loops of [search()] take a budget: one unit per
      alignment tried by the outer loop, one unit per character comparison
      of the inner loop. A run that needs more than its budget ends in
      [OutOfBudget]. *)

From Stdlib Require Import ZArith Ascii String.
From stdpp Require Import base tactics option list numbers strings.

Local Open Scope Z_scope.

(** ** Outcomes of a run *)

Inductive outcome (A : Type) : Type :=
| Ret (a : A)
| TableOutOfBounds (i : Z)
| StringOutOfBounds (i : Z)
| OutOfBudget.

Arguments Ret {A} a.
Arguments TableOutOfBounds {A} i.
Arguments StringOutOfBounds {A} i.
Arguments OutOfBudget {A}.

Definition outcome_bind {A B : Type} (f : A -> outcome B) (x : outcome A) : outcome B :=
  match x with
  | Ret a => f a
  | TableOutOfBounds i => TableOutOfBounds i
  | StringOutOfBounds i => StringOutOfBounds i
  | OutOfBudget => OutOfBudget
  end.

#[global] Instance outcome_mret : MRet outcome := fun A a => Ret a.
#[global] Instance outcome_mbind : MBind outcome := fun A B f x => outcome_bind f x.

(** ** Machine integers and characters *)

Definition POSSIBLE_CHARACTERS : Z := 256.

Definition INT_MAX : Z := 2 ^ 31 - 1.

(** Conversion to [int]: reduction modulo 2^32 into [-2^31, 2^31). *)
Definition to_int (z : Z) : Z := Z.modulo (z + 2 ^ 31) (2 ^ 32) - 2 ^ 31.

(** The byte stored in a [char], as a number in [0, 256). *)
Definition char_code (c : ascii) : Z := Z.of_N (N_of_ascii c).

(** The character [CharT()] that [operator[]] yields at [size()]. *)
Definition NUL : ascii := Ascii.zero.

(** [s[i]] for a [std::string] [s] and an [int] [i]. The index converts to
    [size_t], so a negative one is far past the end. *)
Definition string_at (s : list ascii) (i : Z) : outcome ascii :=
  if bool_decide (i < 0) then StringOutOfBounds i
  else match s !! Z.to_nat i with
       | Some c => Ret c
       | None => if bool_decide (i = Z.of_nat (length s)) then Ret NUL
                 else StringOutOfBounds i
       end.

(** [tbl[i]] read, for the array [int tbl[256]]. *)
Definition table_get (tbl : list Z) (i : Z) : outcome Z :=
  if bool_decide (0 <= i < POSSIBLE_CHARACTERS) then
    match tbl !! Z.to_nat i with
    | Some v => Ret v
    | None => TableOutOfBounds i
    end
  else TableOutOfBounds i.

(** [tbl[i] = v]. *)
Definition table_set (tbl : list Z) (i : Z) (v : Z) : outcome (list Z) :=
  if bool_decide (0 <= i < POSSIBLE_CHARACTERS) then
    match tbl !! Z.to_nat i with
    | Some _ => Ret (<[Z.to_nat i := v]> tbl)
    | None => TableOutOfBounds i
    end
  else TableOutOfBounds i.

(** [for (int i = start; i < bound; i++) body(i)], for a loop that runs
    its body [n] times: [n] is 256 for the first loop of the preprocessing
    and [m_pattern.size()] for the second, whose guard
    [i < m_pattern.size()] holds for exactly the first [size()] values
    of [i]. *)
Fixpoint for_loop {St : Type} (n : nat) (i : Z) (body : Z -> St -> outcome St) (s : St)
  : outcome St :=
  match n with
  | O => Ret s
  | S n' => s' ← body i s; for_loop n' (to_int (i + 1)) body s'
  end.

(** ** The class *)

Record StringFinder : Type := {
  m_text : list ascii;
  m_pattern : list ascii;
  m_lastOccurrences : list Z
}.

(** What one pass of the outer loop of [search()] ends in. *)
Inductive alignment_result : Type :=
| Found (skip : Z)
| Shift (skip : Z).

(** ** Inputs of the concrete runs *)

(** The characters of a string literal. *)
Definition chars (s : string) : list ascii := list_ascii_of_string s.

(** The byte 0xFF. *)
Definition byte_FF : ascii := ascii_of_N 255.

(** An object whose table is stale: it fits no pattern. *)
Definition stale_finder : StringFinder :=
  {| m_text := chars "1"; m_pattern := chars "zz";
     m_lastOccurrences := replicate (Z.to_nat POSSIBLE_CHARACTERS) 7 |}.

(** An object whose table has nothing to do with its pattern. *)
Definition mismatched_finder : StringFinder :=
  {| m_text := chars "abcab"; m_pattern := chars "cab";
     m_lastOccurrences := replicate (Z.to_nat POSSIBLE_CHARACTERS) 7 |}.

(** The object that [StringFinder("1", "1")] constructs. *)
Definition one_finder : StringFinder :=
  {| m_text := chars "1"; m_pattern := chars "1";
     m_lastOccurrences :=
       <[Z.to_nat (char_code "1") := 0]> (replicate (Z.to_nat POSSIBLE_CHARACTERS) (-1)) |}.

(** ** Evaluation tactics for the concrete runs *)

Ltac by_evaluation :=
  lazymatch goal with |- ?P => apply (@bool_decide_unpack P _) end;
  vm_compute; exact I.

(** Gives the object that a construction evaluates to as the witness of
    [exists sf, StringFinder_new .. = Ret sf /\ ..]. *)
Ltac exists_constructed :=
  lazymatch goal with
  | |- exists sf, ?new = Ret sf /\ _ =>
      let o := eval vm_compute in new in
      lazymatch o with Ret ?sf => exists sf end
  end;
  split; [vm_compute; reflexivity|].

Section Model.

(** Implementation-defined: is plain [char] a signed type? *)
Variable char_signed : bool.

(** The [int] a [char] promotes to. *)
Definition int_of_char (c : ascii) : Z :=
  if char_signed && bool_decide (128 <= char_code c)
  then char_code c - 256
  else char_code c.

(** [StringFinder::badCharacterPreprocessing] *)
Definition badCharacterPreprocessing (sf : StringFinder) : outcome StringFinder :=
  (* Fill up the bad character array with -1 *)
  tbl ← for_loop (Z.to_nat POSSIBLE_CHARACTERS) 0
          (fun i tbl => table_set tbl i (-1))
          (m_lastOccurrences sf);
  (* Indicate the last occurrence of each character within the pattern *)
  tbl ← for_loop (length (m_pattern sf)) 0
          (fun i tbl => c ← string_at (m_pattern sf) i;
                        table_set tbl (int_of_char c) i)
          tbl;
  Ret {| m_text := m_text sf; m_pattern := m_pattern sf; m_lastOccurrences := tbl |}.

(** [StringFinder::goodSuffixPreprocessing]: its body is empty. *)
Definition goodSuffixPreprocessing (sf : StringFinder) : outcome StringFinder :=
  Ret sf.

(** [StringFinder::StringFinder]. The array is uninitialised when the body
    starts; the model starts it at zeros, and [preprocessing_rebuilds]
    shows that what it holds then does not matter. *)
Definition StringFinder_new (text pattern : list ascii) : outcome StringFinder :=
  sf ← badCharacterPreprocessing
         {| m_text := text; m_pattern := pattern;
            m_lastOccurrences := replicate (Z.to_nat POSSIBLE_CHARACTERS) 0 |};
  goodSuffixPreprocessing sf.

(** The inner loop of [search()]:
    [while (p >= 0) { if (m_text[skip + p] != m_pattern[p]) break; p--; }].
    It returns the final [p]; [comparisons] bounds the number of character
    comparisons. *)
Fixpoint compare_backwards (comparisons : nat) (sf : StringFinder) (skip p : Z)
  : outcome Z :=
  if bool_decide (0 <= p) then
    match comparisons with
    | O => OutOfBudget
    | S comparisons' =>
        a ← string_at (m_text sf) (to_int (skip + p));
        b ← string_at (m_pattern sf) p;
        if bool_decide (a <> b) then Ret p
        else compare_backwards comparisons' sf skip (to_int (p - 1))
    end
  else Ret p.

(** The body of the outer loop of [search()] at alignment [skip]. *)
Definition try_alignment (comparisons : nat) (sf : StringFinder)
    (patternSize skip : Z) : outcome alignment_result :=
  p ← compare_backwards comparisons sf skip (to_int (patternSize - 1));
  if bool_decide (p < 0) then Ret (Found skip)
  else
    bad ← string_at (m_text sf) (to_int (skip + p));
    last ← table_get (m_lastOccurrences sf) (int_of_char bad);
    let update := to_int (p - last) in
    if bool_decide (1 <= update) then Ret (Shift (to_int (skip + update)))
    else Ret (Shift (to_int (skip + 1))).

(** The outer loop of [search()]: [while (skip <= maxSkip) { ... }], then
    [return -1]. [alignments] bounds the number of passes. *)
Fixpoint scan (alignments comparisons : nat) (sf : StringFinder)
    (patternSize maxSkip skip : Z) : outcome Z :=
  if bool_decide (skip <= maxSkip) then
    match alignments with
    | O => OutOfBudget
    | S alignments' =>
        r ← try_alignment comparisons sf patternSize skip;
        match r with
        | Found s => Ret s
        | Shift skip' => scan alignments' comparisons sf patternSize maxSkip skip'
        end
    end
  else Ret (-1).

(** [int StringFinder::search()] *)
Definition search (alignments comparisons : nat) (sf : StringFinder)
  : outcome (Z * StringFinder) :=
  let textSize := to_int (Z.of_nat (length (m_text sf))) in
  let patternSize := to_int (Z.of_nat (length (m_pattern sf))) in
  if bool_decide (patternSize = 0) then Ret (-1, sf)
  else
    let skip := 0 in
    let maxSkip := to_int (textSize - patternSize) in
    r ← scan alignments comparisons sf patternSize maxSkip skip;
    Ret (r, sf).

(** [int StringFinder::search(string newPattern)] *)
Definition search_newPattern (alignments comparisons : nat)
    (newPattern : list ascii) (sf : StringFinder) : outcome (Z * StringFinder) :=
  let sf := {| m_text := m_text sf; m_pattern := newPattern;
               m_lastOccurrences := m_lastOccurrences sf |} in
  sf ← badCharacterPreprocessing sf;
  sf ← goodSuffixPreprocessing sf;
  search alignments comparisons sf.

(** ** Specification vocabulary *)

(** [t[s : s + |p|] == p]: the pattern occurs in the text at offset [s]. *)
Definition matches_at (t p : list ascii) (s : nat) : Prop :=
  take (length p) (drop s t) = p.

(** [p] is a substring of [t]. *)
Definition substring_of (p t : list ascii) : Prop :=
  exists s : nat, matches_at t p s.

(** [s] is the smallest offset at which [p] occurs in [t]. *)
Definition first_match (t p : list ascii) (s : nat) : Prop :=
  matches_at t p s /\ forall s' : nat, matches_at t p s' -> (s <= s')%nat.

(** [v] is the highest index of [p] that holds the byte [b], or -1 when no
    index does. *)
Definition last_occurrence (p : list ascii) (b : ascii) (v : Z) : Prop :=
  (v = -1 /\ forall j : nat, p !! j <> Some b) \/
  (0 <= v /\ p !! Z.to_nat v = Some b /\
   forall j : nat, p !! j = Some b -> (j <= Z.to_nat v)%nat).

(** The skip-table entry for the byte [b]: the cell [b] of the array. *)
Definition table_entry (sf : StringFinder) (b : ascii) : option Z :=
  m_lastOccurrences sf !! Z.to_nat (char_code b).

(** The length of a string is representable as an [int]. *)
Definition fits_int (s : list ascii) : Prop := Z.of_nat (length s) <= INT_MAX.

(** The [char] indexes the table within its bounds. *)
Definition indexes_table (c : ascii) : Prop :=
  0 <= int_of_char c < POSSIBLE_CHARACTERS.

(** The inputs on which the program's behaviour is defined: both lengths
    are representable as [int], and every character, used as an index,
    falls inside the table. *)
Definition defined_on (t p : list ascii) : Prop :=
  fits_int t /\ fits_int p /\ Forall indexes_table t /\ Forall indexes_table p.

(** The array member has its declared size. *)
Definition well_formed (sf : StringFinder) : Prop :=
  length (m_lastOccurrences sf) = Z.to_nat POSSIBLE_CHARACTERS.

(** The class invariant: the table records the pattern's last occurrences. *)
Definition table_consistent (sf : StringFinder) : Prop :=
  well_formed sf /\
  forall b : ascii, exists v, table_entry sf b = Some v /\ last_occurrence (m_pattern sf) b v.

(** The table that the two loops leave for a given pattern, started from
    cells that all hold -1. *)
Definition built_table (pattern : list ascii) : outcome (list Z) :=
  for_loop (length pattern) 0
    (fun i tbl => c ← string_at pattern i; table_set tbl (int_of_char c) i)
    (replicate (Z.to_nat POSSIBLE_CHARACTERS) (-1)).

(** The table agrees with the first [k] characters of the pattern. *)
Definition table_upto (pattern : list ascii) (tbl : list Z) (k : nat) : Prop :=
  length tbl = Z.to_nat POSSIBLE_CHARACTERS /\
  forall b : ascii, exists v,
    tbl !! Z.to_nat (char_code b) = Some v /\ last_occurrence (take k pattern) b v.

(** ** Clients of the class *)

(** The budgets that [search()] is shown to need for a text and a pattern:
    one alignment per candidate offset [0 .. n - m], and [m] comparisons
    for each. *)
Definition budget_covers (t p : list ascii) (alignments comparisons : nat) : Prop :=
  Z.of_nat (length t) - Z.of_nat (length p) + 1 <= Z.of_nat alignments /\
  (length p <= comparisons)%nat.

(** A member-function call that a client makes. *)
Inductive call : Type :=
| Search
| SearchNew (newPattern : list ascii).

Definition perform (alignments comparisons : nat) (op : call) (sf : StringFinder)
  : outcome (Z * StringFinder) :=
  match op with
  | Search => search alignments comparisons sf
  | SearchNew newPattern => search_newPattern alignments comparisons newPattern sf
  end.

(** A sequence of calls on one object; the values returned, in order. *)
Fixpoint perform_all (alignments comparisons : nat) (ops : list call) (sf : StringFinder)
  : outcome (list Z * StringFinder) :=
  match ops with
  | [] => Ret ([], sf)
  | op :: ops' =>
      r ← perform alignments comparisons op sf;
      rs ← perform_all alignments comparisons ops' r.2;
      Ret (r.1 :: rs.1, rs.2)
  end.

#[global] Instance defined_on_dec (t p : list ascii) : Decision (defined_on t p).
Proof. unfold defined_on, fits_int, indexes_table. apply _. Defined.


(** ** The rest of the program *)

(** [int StringFinder::max(int a, int b)]: [(a >= b) ? a : b]. *)
Definition max (a b : Z) : Z := if bool_decide (a >= b) then a else b.

#[global] Instance matches_at_dec (t p : list ascii) (s : nat) : Decision (matches_at t p s).
Proof. unfold matches_at. apply _. Defined.

(** The naive search that the program description sets Boyer-Moore
    against: "checking each aligning a pattern and text can have, and
    seeing if that alignment shows that the pattern and text match", from
    the left, with the program's convention that the empty pattern is
    never found. [naive_scan] tries [candidates] alignments from [s] on. *)
Fixpoint naive_scan (t p : list ascii) (s candidates : nat) : Z :=
  match candidates with
  | O => -1
  | S candidates' =>
      if bool_decide (matches_at t p s) then Z.of_nat s
      else naive_scan t p (S s) candidates'
  end.

Definition naive_search (t p : list ascii) : Z :=
  if bool_decide (p = []) then -1
  else naive_scan t p 0 (length t + 1 - length p).

(** The pattern an object holds after a sequence of calls. *)
Fixpoint last_pattern (p : list ascii) (ops : list call) : list ascii :=
  match ops with
  | [] => p
  | Search :: ops' => last_pattern p ops'
  | SearchNew newPattern :: ops' => last_pattern newPattern ops'
  end.

(** What a naive search returns for each call of a sequence, on the text
    [t] and with [p] the pattern in force before the first call. *)
Fixpoint naive_results (t p : list ascii) (ops : list call) : list Z :=
  match ops with
  | [] => []
  | Search :: ops' => naive_search t p :: naive_results t p ops'
  | SearchNew newPattern :: ops' =>
      naive_search t newPattern :: naive_results t newPattern ops'
  end.

(** A call whose pattern the program is defined on, and that the
    comparison budget covers. *)
Definition call_defined (comparisons : nat) (op : call) : Prop :=
  match op with
  | Search => True
  | SearchNew newPattern =>
      fits_int newPattern /\ Forall indexes_table newPattern /\
      (length newPattern <= comparisons)%nat
  end.

(** Every comparison of the alignment [skip] was made and succeeded. *)
Definition all_compared (sf : StringFinder) (skip : Z) : Prop :=
  forall j : Z, 0 <= j < Z.of_nat (length (m_pattern sf)) ->
    exists x, string_at (m_text sf) (to_int (skip + j)) = Ret x /\
              string_at (m_pattern sf) j = Ret x.

#[global] Instance indexes_table_dec (c : ascii) : Decision (indexes_table c).
Proof. unfold indexes_table. apply _. Defined.

#[global] Instance call_defined_dec (comparisons : nat) (op : call) :
  Decision (call_defined comparisons op).
Proof. destruct op; unfold call_defined, fits_int; apply _. Defined.

(** How a run of [main()] ends: it prints and returns, an [assert] fails,
    or a member function runs into undefined behaviour or out of budget. *)
Inductive main_result : Type :=
| Printed (out : string)
| AssertionFailed
| NoResult.

(** A declaration [StringFinder s(text, pattern);] followed by the rest of
    [main()]. *)
Definition declare (o : outcome StringFinder) (rest : StringFinder -> main_result)
  : main_result :=
  match o with
  | Ret s => rest s
  | _ => NoResult
  end.

(** [assert(call == expected);] followed by the rest of [main()]. *)
Definition assert_returns (o : outcome (Z * StringFinder)) (expected : Z)
    (rest : StringFinder -> main_result) : main_result :=
  match o with
  | Ret (v, s) => if bool_decide (v = expected) then rest s else AssertionFailed
  | _ => NoResult
  end.

(** The line that [cout << "All tests passed!" << endl] writes. *)
Definition ALL_TESTS_PASSED : string :=
  String.append "All tests passed!" (String (ascii_of_nat 10) EmptyString).

(** [int main()] *)
Definition main (alignments comparisons : nat) : main_result :=
  let search := search alignments comparisons in
  let search_new p := search_newPattern alignments comparisons (chars p) in
  declare (StringFinder_new (chars "") (chars "")) (fun s =>
  assert_returns (search s) (-1) (fun s =>
  assert_returns (search_new "hello" s) (-1) (fun s =>
  declare (StringFinder_new (chars "1") (chars "")) (fun s1 =>
  assert_returns (search s1) (-1) (fun s1 =>
  assert_returns (search_new "1" s1) 0 (fun s1 =>
  assert_returns (search_new "Not here" s1) (-1) (fun s1 =>
  declare (StringFinder_new
             (chars "Zack Berger is a student at University of California")
             (chars "Zack")) (fun s2 =>
  assert_returns (search s2) 0 (fun s2 =>
  assert_returns (search_new "k Berger" s2) 3 (fun s2 =>
  assert_returns (search_new "is a stud" s2) 12 (fun s2 =>
  assert_returns (search_new "student at" s2) 17 (fun s2 =>
  assert_returns (search_new "ia" s2) 50 (fun s2 =>
  assert_returns (search_new "???" s2) (-1) (fun s2 =>
  assert_returns (search_new "Student" s2) (-1) (fun s2 =>
  declare (StringFinder_new
             (chars "mv0t9q3mytx1789mychqp3u,x9349u0qtx4u3hhqmq8qt h80t h h0h   0t qh7 0ht00 aaaa")
             (chars "aaaa")) (fun s3 =>
  assert_returns (search s3) 72 (fun s3 =>
  assert_returns (search_new "mv" s3) 0 (fun s3 =>
  assert_returns (search_new ",x9349" s3) 23 (fun s3 =>
  Printed ALL_TESTS_PASSED))))))))))))))))))).

(** ** Integers, characters, array cells *)

Lemma to_int_id (z : Z) : - 2 ^ 31 <= z <= INT_MAX -> to_int z = z.
Proof.
  unfold to_int, INT_MAX. intros H.
  rewrite Z.mod_small; lia.
Qed.

Lemma char_code_range (c : ascii) : 0 <= char_code c < 256.
Proof.
  unfold char_code. pose proof (N_ascii_bounded c). lia.
Qed.

Lemma char_code_inj (a b : ascii) : char_code a = char_code b -> a = b.
Proof.
  unfold char_code. intros H.
  rewrite <- (ascii_N_embedding a), <- (ascii_N_embedding b).
  f_equal. lia.
Qed.

Lemma int_of_char_inj (a b : ascii) : int_of_char a = int_of_char b -> a = b.
Proof.
  unfold int_of_char. intros H. apply char_code_inj.
  pose proof (char_code_range a). pose proof (char_code_range b).
  destruct char_signed; simpl in H; repeat case_bool_decide; lia.
Qed.

Lemma indexes_table_code (c : ascii) : indexes_table c -> int_of_char c = char_code c.
Proof.
  unfold indexes_table, int_of_char, POSSIBLE_CHARACTERS.
  pose proof (char_code_range c).
  destruct char_signed; simpl; repeat case_bool_decide; lia.
Qed.

Lemma string_at_lookup (s : list ascii) (i : nat) (c : ascii) :
  s !! i = Some c -> string_at s (Z.of_nat i) = Ret c.
Proof.
  intros H. unfold string_at.
  rewrite bool_decide_eq_false_2 by lia.
  by rewrite Nat2Z.id, H.
Qed.

Lemma table_get_lookup (tbl : list Z) (i v : Z) :
  0 <= i < POSSIBLE_CHARACTERS -> tbl !! Z.to_nat i = Some v -> table_get tbl i = Ret v.
Proof.
  intros Hi H. unfold table_get. by rewrite bool_decide_eq_true_2, H.
Qed.

Lemma table_set_insert (tbl : list Z) (i v : Z) :
  0 <= i < POSSIBLE_CHARACTERS -> (Z.to_nat i < length tbl)%nat ->
  table_set tbl i v = Ret (<[Z.to_nat i := v]> tbl).
Proof.
  intros Hi Hl. unfold table_set. rewrite bool_decide_eq_true_2 by done.
  destruct (lookup_lt_is_Some_2 tbl (Z.to_nat i) Hl) as [w ->]. done.
Qed.

(** ** The monad's equations *)

Lemma bind_Ret {A B : Type} (a : A) (f : A -> outcome B) : (Ret a ≫= f) = f a.
Proof. reflexivity. Qed.

Lemma bind_is_Ret {A B : Type} (x : outcome A) (f : A -> outcome B) (b : B) :
  (x ≫= f) = Ret b -> exists a, x = Ret a /\ f a = Ret b.
Proof. destruct x; try discriminate. intros H. by exists a. Qed.

(** ** Preprocessing: the table after [badCharacterPreprocessing] *)

Lemma fill_loop (n : nat) : forall pre rest : list Z,
  length rest = n ->
  Z.of_nat (length pre) + Z.of_nat n <= POSSIBLE_CHARACTERS ->
  for_loop n (Z.of_nat (length pre)) (fun i tbl => table_set tbl i (-1)) (pre ++ rest)
  = Ret (pre ++ replicate n (-1)).
Proof.
  unfold POSSIBLE_CHARACTERS.
  induction n as [|n IH]; intros pre rest Hlen Hle.
  - destruct rest; [done | discriminate].
  - destruct rest as [|x rest]; [discriminate|]. simpl in Hlen.
    cbn [for_loop]. rewrite table_set_insert.
    2: { unfold POSSIBLE_CHARACTERS. lia. }
    2: { rewrite Nat2Z.id, length_app. simpl. lia. }
    rewrite bind_Ret, Nat2Z.id.
    rewrite insert_app_r_alt by lia. rewrite Nat.sub_diag. cbn [insert list_insert].
    rewrite to_int_id by (unfold INT_MAX; lia).
    replace (Z.of_nat (length pre) + 1) with (Z.of_nat (length (pre ++ [-1])))
      by (rewrite length_app; simpl; lia).
    replace (pre ++ -1 :: rest) with ((pre ++ [-1]) ++ rest)
      by (by rewrite <- app_assoc).
    rewrite IH.
    + by rewrite <- app_assoc.
    + lia.
    + rewrite length_app. simpl. lia.
Qed.

Lemma fill_all (tbl : list Z) :
  length tbl = Z.to_nat POSSIBLE_CHARACTERS ->
  for_loop (Z.to_nat POSSIBLE_CHARACTERS) 0 (fun i tbl => table_set tbl i (-1)) tbl
  = Ret (replicate (Z.to_nat POSSIBLE_CHARACTERS) (-1)).
Proof.
  intros H. apply (fill_loop _ [] tbl H).
  unfold POSSIBLE_CHARACTERS. simpl. lia.
Qed.

(** The table is rebuilt from the pattern alone: whatever the array held
    before, the first loop overwrites every cell. *)
Lemma preprocessing_rebuilds (sf : StringFinder) :
  well_formed sf ->
  badCharacterPreprocessing sf =
    (tbl ← built_table (m_pattern sf);
     Ret {| m_text := m_text sf; m_pattern := m_pattern sf; m_lastOccurrences := tbl |}).
Proof.
  intros Hwf. unfold badCharacterPreprocessing.
  by rewrite (fill_all _ Hwf), bind_Ret.
Qed.

Lemma last_occurrence_snoc_same (l : list ascii) (c : ascii) :
  last_occurrence (l ++ [c]) c (Z.of_nat (length l)).
Proof.
  right. rewrite Nat2Z.id. split; [lia|]. split.
  - by rewrite lookup_app_r, Nat.sub_diag.
  - intros j Hj. apply lookup_lt_Some in Hj. rewrite length_app in Hj. simpl in Hj. lia.
Qed.

Lemma last_occurrence_snoc_other (l : list ascii) (b c : ascii) (v : Z) :
  b <> c -> last_occurrence l b v -> last_occurrence (l ++ [c]) b v.
Proof.
  intros Hne [[-> Hno] | (Hv & Hat & Hmax)].
  - left. split; [done|]. intros j Hj.
    destruct (decide (j < length l)%nat) as [Hlt|Hge].
    + rewrite lookup_app_l in Hj by done. by apply (Hno j).
    + rewrite lookup_app_r in Hj by lia.
      apply list_lookup_singleton_Some in Hj as [_ Hj]. congruence.
  - right. split; [done|]. split.
    + rewrite lookup_app_l; [done|]. by apply lookup_lt_Some in Hat.
    + intros j Hj.
      destruct (decide (j < length l)%nat) as [Hlt|Hge].
      * rewrite lookup_app_l in Hj by done. by apply Hmax.
      * rewrite lookup_app_r in Hj by lia.
        apply list_lookup_singleton_Some in Hj as [_ Hj]. congruence.
Qed.

Lemma last_occurrence_unique (l : list ascii) (b : ascii) (v v' : Z) :
  last_occurrence l b v -> last_occurrence l b v' -> v = v'.
Proof.
  intros [[-> Hno]|(Hv & Hat & Hmax)] [[-> Hno']|(Hv' & Hat' & Hmax')].
  - reflexivity.
  - exfalso. by apply (Hno (Z.to_nat v')).
  - exfalso. by apply (Hno' (Z.to_nat v)).
  - apply Hmax' in Hat. apply Hmax in Hat'. lia.
Qed.

Lemma record_loop (pattern : list ascii) :
  fits_int pattern -> Forall indexes_table pattern ->
  forall (n i : nat) (tbl : list Z),
    (i + n)%nat = length pattern ->
    table_upto pattern tbl i ->
    exists tbl',
      for_loop n (Z.of_nat i)
        (fun i tbl => c ← string_at pattern i; table_set tbl (int_of_char c) i) tbl
      = Ret tbl' /\ table_upto pattern tbl' (i + n).
Proof.
  intros Hfit Hidx. unfold fits_int, INT_MAX in Hfit.
  induction n as [|n IH]; intros i tbl Hin [Hlen Htbl].
  - exists tbl. rewrite Nat.add_0_r. by split.
  - destruct (lookup_lt_is_Some_2 pattern i) as [c Hc]; [lia|].
    assert (Hc_idx : indexes_table c).
    { eapply Forall_lookup_1; eauto. }
    pose proof (indexes_table_code c Hc_idx) as Hcode.
    unfold indexes_table in Hc_idx. rewrite Hcode in Hc_idx.
    cbn [for_loop]. rewrite (string_at_lookup _ _ _ Hc), bind_Ret, Hcode.
    rewrite table_set_insert; [|done|].
    2: { rewrite Hlen. unfold POSSIBLE_CHARACTERS in *. lia. }
    rewrite bind_Ret, to_int_id by (unfold INT_MAX; lia).
    replace (Z.of_nat i + 1) with (Z.of_nat (S i)) by lia.
    replace (i + S n)%nat with (S i + n)%nat by lia.
    apply IH; [lia|]. split; [by rewrite length_insert|].
    intros b. rewrite (take_S_r _ _ _ Hc).
    destruct (decide (b = c)) as [->|Hne].
    + exists (Z.of_nat i). split.
      * apply list_lookup_insert_eq. rewrite Hlen. unfold POSSIBLE_CHARACTERS in *. lia.
      * pose proof (last_occurrence_snoc_same (take i pattern) c) as H.
        rewrite length_take, Nat.min_l in H by lia. done.
    + destruct (Htbl b) as (v & Hv & Hlast). exists v. split.
      * rewrite list_lookup_insert_ne; [done|].
        intros Heq. apply Hne. symmetry. apply char_code_inj.
        pose proof (char_code_range b). pose proof (char_code_range c). lia.
      * by apply last_occurrence_snoc_other.
Qed.

Lemma built_table_spec (pattern : list ascii) :
  fits_int pattern -> Forall indexes_table pattern ->
  exists tbl, built_table pattern = Ret tbl /\
    table_upto pattern tbl (length pattern).
Proof.
  intros Hfit Hidx. unfold built_table.
  apply (record_loop pattern Hfit Hidx (length pattern) 0%nat); [done|].
  split; [by rewrite length_replicate|].
  intros b. exists (-1). split.
  - apply lookup_replicate_2. pose proof (char_code_range b).
    unfold POSSIBLE_CHARACTERS. lia.
  - left. split; [done|]. intros j. by rewrite take_0.
Qed.

(** [badCharacterPreprocessing] establishes the class invariant and
    touches neither the text nor the pattern. *)
Lemma preprocessing_spec (sf : StringFinder) :
  well_formed sf -> fits_int (m_pattern sf) -> Forall indexes_table (m_pattern sf) ->
  exists sf', badCharacterPreprocessing sf = Ret sf' /\
    m_text sf' = m_text sf /\ m_pattern sf' = m_pattern sf /\
    built_table (m_pattern sf) = Ret (m_lastOccurrences sf') /\
    table_consistent sf'.
Proof.
  intros Hwf Hfit Hidx. rewrite (preprocessing_rebuilds _ Hwf).
  destruct (built_table_spec _ Hfit Hidx) as (tbl & -> & Hlen & Htbl).
  eexists. split; [by rewrite bind_Ret|]. simpl.
  repeat split; try done.
  intros b. destruct (Htbl b) as (v & Hv & Hlast).
  exists v. split; [done|]. by rewrite firstn_all in Hlast.
Qed.

(** ** Occurrences of the pattern, character by character *)

Lemma matches_at_lookup (t p : list ascii) (s : nat) :
  matches_at t p s <->
  forall j : nat, (j < length p)%nat -> t !! (s + j)%nat = p !! j.
Proof.
  unfold matches_at. split.
  - intros H j Hj.
    rewrite <- (lookup_drop t s j), <- (lookup_take_lt (drop s t) (length p) j) by done.
    by rewrite H.
  - intros H. apply list_eq. intros j.
    destruct (decide (j < length p)%nat) as [Hlt|Hge].
    + by rewrite lookup_take_lt, lookup_drop, H.
    + rewrite lookup_take_ge by lia. symmetry. apply lookup_ge_None_2. lia.
Qed.

Lemma matches_at_fits (t p : list ascii) (s : nat) :
  p <> [] -> matches_at t p s -> (s + length p <= length t)%nat.
Proof.
  intros Hne H.
  assert (Hlen : length (take (length p) (drop s t)) = length p) by (by rewrite H).
  rewrite length_take, length_drop in Hlen.
  destruct p as [|a p]; [done|]. rewrite length_cons in *. lia.
Qed.

(** ** The scan, for an object that satisfies the class invariant *)

Section Scan.

Variable sf : StringFinder.

Local Abbreviation text := (m_text sf).
Local Abbreviation pattern := (m_pattern sf).
Local Abbreviation n := (Z.of_nat (length (m_text sf))).
Local Abbreviation m := (Z.of_nat (length (m_pattern sf))).

Hypothesis text_fits : fits_int text.
Hypothesis text_indexes : Forall indexes_table text.
Hypothesis consistent : table_consistent sf.

(** The inner loop stops at the rightmost mismatch of the alignment, or at
    -1 when there is none, after at most [k] comparisons. *)
Lemma compare_backwards_spec (skip : nat) :
  Z.of_nat skip + m <= n ->
  forall (k comparisons : nat) (p : Z),
    p = Z.of_nat k - 1 ->
    Z.of_nat k <= m -> (k <= comparisons)%nat ->
    (forall j : nat, (k <= j < length pattern)%nat -> text !! (skip + j)%nat = pattern !! j) ->
    exists q : Z,
      compare_backwards comparisons sf (Z.of_nat skip) p = Ret q /\
      -1 <= q < Z.of_nat k /\
      (forall j : nat, q < Z.of_nat j < m -> text !! (skip + j)%nat = pattern !! j) /\
      (0 <= q -> text !! (skip + Z.to_nat q)%nat <> pattern !! Z.to_nat q).
Proof.
  intros Hskip. pose proof text_fits as Hfit. unfold fits_int, INT_MAX in Hfit.
  induction k as [|k IH]; intros comparisons p -> Hk Hbudget Hsuffix.
  - exists (-1). split; [|split; [lia|split; [|lia]]].
    + by destruct comparisons.
    + intros j Hj. apply Hsuffix. lia.
  - destruct comparisons as [|comparisons]; [lia|].
    cbn [compare_backwards]. rewrite bool_decide_eq_true_2 by lia.
    replace (Z.of_nat (S k) - 1) with (Z.of_nat k) by lia.
    destruct (lookup_lt_is_Some_2 text (skip + k)) as [a Ha]; [lia|].
    destruct (lookup_lt_is_Some_2 pattern k) as [b Hb]; [lia|].
    rewrite (to_int_id (Z.of_nat skip + Z.of_nat k)) by (unfold INT_MAX; lia).
    replace (Z.of_nat skip + Z.of_nat k) with (Z.of_nat (skip + k)) by lia.
    rewrite (string_at_lookup _ _ _ Ha), bind_Ret.
    rewrite (string_at_lookup _ _ _ Hb), bind_Ret.
    case_bool_decide as Hab.
    + exists (Z.of_nat k). split; [done|]. split; [lia|]. split.
      * intros j Hj. apply Hsuffix. lia.
      * intros _. rewrite Nat2Z.id, Ha, Hb. congruence.
    + assert (a = b) as -> by (by destruct (decide (a = b))).
      rewrite to_int_id by (unfold INT_MAX; lia).
      destruct (IH comparisons (Z.of_nat k - 1)) as (q & Hq & Hrange & Hmatch & Hmis);
        [done|lia|lia| |].
      * intros j Hj. destruct (decide (j = k)) as [->|Hne].
        -- by rewrite Ha, Hb.
        -- apply Hsuffix. lia.
      * exists q. split; [done|]. split; [lia|]. by split.
Qed.

(** One pass of the outer loop: the pattern is found at [skip], or the
    alignment moves right by at least one position, and by no more than
    the bad-character rule allows: no occurrence is stepped over. *)
Lemma try_alignment_spec (skip comparisons : nat) :
  Z.of_nat skip + m <= n -> (length pattern <= comparisons)%nat ->
  exists r, try_alignment comparisons sf m (Z.of_nat skip) = Ret r /\
    match r with
    | Found s => s = Z.of_nat skip /\ matches_at text pattern skip
    | Shift s' =>
        Z.of_nat skip + 1 <= s' <= Z.of_nat skip + m /\
        forall s'' : nat, Z.of_nat skip <= Z.of_nat s'' < s' ->
                          ~ matches_at text pattern s''
    end.
Proof.
  intros Hskip Hbudget. pose proof text_fits as Hfit. unfold fits_int, INT_MAX in Hfit.
  unfold try_alignment.
  destruct (compare_backwards_spec skip Hskip (length pattern) comparisons
              (to_int (m - 1))) as (q & -> & Hrange & Hmatch & Hmis).
  { apply to_int_id. unfold INT_MAX. lia. }
  { lia. } { done. } { intros j Hj. lia. }
  rewrite bind_Ret. case_bool_decide as Hq.
  - eexists. split; [done|]. split; [done|].
    apply matches_at_lookup. intros j Hj. apply Hmatch. lia.
  - specialize (Hmis ltac:(lia)).
    destruct (lookup_lt_is_Some_2 text (skip + Z.to_nat q)) as [bad Hbad]; [lia|].
    rewrite (to_int_id (Z.of_nat skip + q)) by (unfold INT_MAX; lia).
    replace (Z.of_nat skip + q) with (Z.of_nat (skip + Z.to_nat q)) by lia.
    rewrite (string_at_lookup _ _ _ Hbad), bind_Ret.
    assert (Hidx : indexes_table bad) by (eapply Forall_lookup_1; eauto).
    destruct consistent as [Hwf Htbl].
    destruct (Htbl bad) as (v & Hv & Hlast). unfold table_entry in Hv.
    rewrite (indexes_table_code _ Hidx).
    rewrite (table_get_lookup _ _ v); [|apply char_code_range|done].
    rewrite bind_Ret.
    assert (Hvrange : -1 <= v < m).
    { destruct Hlast as [[-> _]|(Hv0 & Hat & _)]; [lia|].
      apply lookup_lt_Some in Hat. lia. }
    assert (Hnone : forall j : nat, v < Z.of_nat j -> pattern !! j <> Some bad).
    { intros j Hj Hpj. destruct Hlast as [[_ Hno]|(Hv0 & _ & Hmax)].
      - by apply (Hno j).
      - apply Hmax in Hpj. lia. }
    assert (Hhere : ~ matches_at text pattern skip).
    { intros Hm. rewrite matches_at_lookup in Hm. apply Hmis, Hm. lia. }
    assert (Hblocked : forall s'' : nat,
               Z.of_nat skip < Z.of_nat s'' -> Z.of_nat s'' < Z.of_nat skip + q - v ->
               ~ matches_at text pattern s'').
    { intros s'' Hlo Hhi Hm. rewrite matches_at_lookup in Hm.
      specialize (Hm (skip + Z.to_nat q - s'')%nat ltac:(lia)).
      replace (s'' + (skip + Z.to_nat q - s''))%nat with (skip + Z.to_nat q)%nat in Hm by lia.
      rewrite Hbad in Hm. symmetry in Hm. revert Hm. apply Hnone. lia. }
    rewrite (to_int_id (q - v)) by (unfold INT_MAX; lia).
    case_bool_decide as Hupdate.
    + eexists. split; [done|]. cbn beta iota.
      rewrite to_int_id by (unfold INT_MAX; lia).
      split; [lia|]. intros s'' Hs.
      destruct (decide (s'' = skip)) as [->|Hne]; [done|]. apply Hblocked; lia.
    + eexists. split; [done|]. cbn beta iota.
      rewrite to_int_id by (unfold INT_MAX; lia).
      split; [lia|]. intros s'' Hs.
      replace s'' with skip by lia. done.
Qed.

(** The shift is the bad-character rule's, clamped to 1 from below: with
    [q] the position of the rightmost mismatch and [v] the last occurrence
    in the pattern of the text character found there, the next alignment
    is [skip + max 1 (q - v)]. *)
Lemma try_alignment_shift (skip comparisons q : nat) (bad : ascii) (v : Z) :
  Z.of_nat skip + m <= n -> (length pattern <= comparisons)%nat ->
  (q < length pattern)%nat ->
  text !! (skip + q)%nat = Some bad -> pattern !! q <> Some bad ->
  (forall j : nat, (q < j < length pattern)%nat -> text !! (skip + j)%nat = pattern !! j) ->
  last_occurrence pattern bad v ->
  try_alignment comparisons sf m (Z.of_nat skip)
  = Ret (Shift (Z.of_nat skip + Z.max 1 (Z.of_nat q - v))).
Proof.
  intros Hskip Hbudget Hq Hbad Hmis Hsuffix Hlast.
  pose proof text_fits as Hfit. unfold fits_int, INT_MAX in Hfit.
  unfold try_alignment.
  destruct (compare_backwards_spec skip Hskip (length pattern) comparisons
              (to_int (m - 1))) as (q' & -> & Hrange & Hmatch & Hmis').
  { apply to_int_id. unfold INT_MAX. lia. }
  { lia. } { exact Hbudget. } { intros j Hj. lia. }
  assert (q' = Z.of_nat q) as ->.
  { destruct (Z.lt_trichotomy q' (Z.of_nat q)) as [Hlt|[Heq|Hgt]]; [|exact Heq|].
    - exfalso. apply Hmis. rewrite <- Hbad. symmetry. apply Hmatch. lia.
    - exfalso. apply Hmis'; [lia|]. apply Hsuffix. lia. }
  rewrite bind_Ret, bool_decide_eq_false_2 by lia.
  rewrite (to_int_id (Z.of_nat skip + Z.of_nat q)) by (unfold INT_MAX; lia).
  replace (Z.of_nat skip + Z.of_nat q) with (Z.of_nat (skip + q)) by lia.
  rewrite (string_at_lookup _ _ _ Hbad), bind_Ret.
  assert (Hidx : indexes_table bad) by (eapply Forall_lookup_1; eauto).
  destruct consistent as [Hwf Htbl].
  destruct (Htbl bad) as (v' & Hv' & Hlast'). unfold table_entry in Hv'.
  rewrite (last_occurrence_unique _ _ _ _ Hlast' Hlast) in Hv'.
  rewrite (indexes_table_code _ Hidx).
  rewrite (table_get_lookup _ _ v); [|apply char_code_range|exact Hv'].
  rewrite bind_Ret.
  assert (Hvrange : -1 <= v < m).
  { destruct Hlast as [[-> _]|(Hv0 & Hat & _)]; [lia|].
    apply lookup_lt_Some in Hat. lia. }
  rewrite (to_int_id (Z.of_nat q - v)) by (unfold INT_MAX; lia).
  case_bool_decide as Hupdate; cbn beta iota.
  - rewrite to_int_id by (unfold INT_MAX; lia). do 2 f_equal. lia.
  - rewrite to_int_id by (unfold INT_MAX; lia). do 2 f_equal. lia.
Qed.

(** What [scan] returns and what it costs. *)
Lemma scan_spec (comparisons : nat) :
  pattern <> [] ->
  (length pattern <= comparisons)%nat ->
  forall (alignments skip : nat),
    Z.of_nat skip <= n ->
    n - m + 1 - Z.of_nat skip <= Z.of_nat alignments ->
    (forall s'' : nat, (s'' < skip)%nat -> ~ matches_at text pattern s'') ->
    exists r, scan alignments comparisons sf m (n - m) (Z.of_nat skip) = Ret r /\
      ((0 <= r /\ first_match text pattern (Z.to_nat r)) \/
       (r = -1 /\ forall s : nat, ~ matches_at text pattern s)).
Proof.
  intros Hne Hbudget.
  induction alignments as [|alignments IH]; intros skip Hskip Hcost Hinv.
  - exists (-1). cbn [scan]. rewrite bool_decide_eq_false_2 by lia.
    split; [done|]. right. split; [done|]. intros s Hs.
    pose proof (matches_at_fits _ _ _ Hne Hs).
    apply (Hinv s); [lia|done].
  - cbn [scan]. case_bool_decide as Hguard.
    + destruct (try_alignment_spec skip comparisons) as (r & -> & Hr); [lia|done|].
      rewrite bind_Ret. destruct r as [s|s'].
      * destruct Hr as [-> Hm]. exists (Z.of_nat skip). split; [done|].
        left. split; [lia|]. rewrite Nat2Z.id. split; [done|].
        intros s' Hs'. destruct (decide (skip <= s')%nat); [done|].
        exfalso. apply (Hinv s'); [lia|done].
      * destruct Hr as [Hadv Hnone].
        replace s' with (Z.of_nat (Z.to_nat s')) by lia.
        apply IH; [lia|lia|].
        intros s'' Hs''. destruct (decide (s'' < skip)%nat).
        -- by apply Hinv.
        -- apply Hnone. lia.
    + exists (-1). split; [done|]. right. split; [done|]. intros s Hs.
      pose proof (matches_at_fits _ _ _ Hne Hs).
      apply (Hinv s); [lia|done].
Qed.

(** [search()] on an object that satisfies the class invariant. *)
Lemma search_spec (alignments comparisons : nat) :
  fits_int pattern ->
  n - m + 1 <= Z.of_nat alignments -> (length pattern <= comparisons)%nat ->
  exists r, search alignments comparisons sf = Ret (r, sf) /\
    ((pattern = [] /\ r = -1) \/
     (pattern <> [] /\ 0 <= r /\ first_match text pattern (Z.to_nat r)) \/
     (pattern <> [] /\ r = -1 /\ forall s : nat, ~ matches_at text pattern s)).
Proof.
  intros Hpfit Ha Hc. pose proof text_fits as Hfit.
  unfold fits_int, INT_MAX in Hfit, Hpfit. unfold search. cbv zeta.
  rewrite (to_int_id n), (to_int_id m), (to_int_id (n - m)) by (unfold INT_MAX; lia).
  case_bool_decide as Hempty.
  - exists (-1). split; [done|]. left. split; [|done].
    destruct pattern; [done|]. simpl in Hempty. lia.
  - assert (Hne : pattern <> []) by (intros Heq; rewrite Heq in Hempty; done).
    destruct (scan_spec comparisons Hne Hc alignments 0%nat) as (r & Hr & Hres);
      [lia|lia|intros; lia|].
    change (Z.of_nat 0) with 0 in Hr. rewrite Hr, bind_Ret.
    exists r. split; [done|]. right. destruct Hres as [[? ?]|[? ?]]; [left|right]; done.
Qed.

End Scan.

(** ** Construction, and what the member functions leave behind *)

Lemma StringFinder_new_spec (t p : list ascii) :
  fits_int p -> Forall indexes_table p ->
  exists sf, StringFinder_new t p = Ret sf /\
    m_text sf = t /\ m_pattern sf = p /\
    built_table p = Ret (m_lastOccurrences sf) /\
    table_consistent sf.
Proof.
  intros Hfit Hidx. unfold StringFinder_new.
  destruct (preprocessing_spec
              {| m_text := t; m_pattern := p;
                 m_lastOccurrences := replicate (Z.to_nat POSSIBLE_CHARACTERS) 0 |})
    as (sf & -> & Ht & Hp & Htbl & Hcons); try done.
  simpl in Ht, Hp, Htbl. exists sf. by rewrite bind_Ret.
Qed.

(** An object is determined by its three members. *)
Lemma StringFinder_eq (sf sf' : StringFinder) :
  m_text sf = m_text sf' -> m_pattern sf = m_pattern sf' ->
  m_lastOccurrences sf = m_lastOccurrences sf' -> sf = sf'.
Proof. destruct sf, sf'. simpl. by intros -> -> ->. Qed.

(** [search()] assigns to no member. *)
Lemma search_leaves_object (alignments comparisons : nat) (sf sf' : StringFinder) (v : Z) :
  search alignments comparisons sf = Ret (v, sf') -> sf' = sf.
Proof.
  unfold search. cbv zeta. case_bool_decide as Hempty.
  - by intros [= _ <-].
  - intros Hscan. apply bind_is_Ret in Hscan as (r & _ & [= _ <-]). done.
Qed.

(** [badCharacterPreprocessing] assigns to the table alone. *)
Lemma preprocessing_frame (sf sf' : StringFinder) :
  badCharacterPreprocessing sf = Ret sf' ->
  m_text sf' = m_text sf /\ m_pattern sf' = m_pattern sf.
Proof.
  unfold badCharacterPreprocessing.
  generalize (Z.to_nat POSSIBLE_CHARACTERS). intros cells.
  destruct (for_loop cells 0 _ _) as [tbl1| | |]; [|discriminate..].
  rewrite bind_Ret.
  destruct (for_loop (length (m_pattern sf)) 0 _ tbl1) as [tbl2| | |]; [|discriminate..].
  rewrite bind_Ret. by intros [= <-].
Qed.

(** [search(newPattern)] assigns the pattern and rebuilds the table. *)
Lemma search_newPattern_frame (alignments comparisons : nat) (newPattern : list ascii)
    (sf sf' : StringFinder) (v : Z) :
  search_newPattern alignments comparisons newPattern sf = Ret (v, sf') ->
  m_text sf' = m_text sf /\ m_pattern sf' = newPattern.
Proof.
  unfold search_newPattern, goodSuffixPreprocessing.
  destruct (badCharacterPreprocessing _) as [sf1| | |] eqn:Hpre; [|discriminate..].
  rewrite !bind_Ret. intros Hsearch. apply search_leaves_object in Hsearch as ->.
  by apply preprocessing_frame in Hpre.
Qed.

Lemma perform_keeps_text (alignments comparisons : nat) (op : call)
    (sf sf' : StringFinder) (v : Z) :
  perform alignments comparisons op sf = Ret (v, sf') -> m_text sf' = m_text sf.
Proof.
  destruct op as [|newPattern]; cbn [perform]; intros Hcall.
  - by apply search_leaves_object in Hcall as ->.
  - by apply search_newPattern_frame in Hcall as [? _].
Qed.

Lemma StringFinder_new_text (t p : list ascii) (sf : StringFinder) :
  StringFinder_new t p = Ret sf -> m_text sf = t /\ m_pattern sf = p.
Proof.
  unfold StringFinder_new, goodSuffixPreprocessing.
  destruct (badCharacterPreprocessing _) as [sf1| | |] eqn:Hpre; [|discriminate..].
  rewrite bind_Ret. intros [= <-]. by apply preprocessing_frame in Hpre.
Qed.


(** [search(newPattern)] on the inputs where it is defined. *)
Lemma search_newPattern_spec (alignments comparisons : nat) (newPattern : list ascii)
    (sf : StringFinder) :
  well_formed sf -> defined_on (m_text sf) newPattern ->
  budget_covers (m_text sf) newPattern alignments comparisons ->
  exists v sf',
    search_newPattern alignments comparisons newPattern sf = Ret (v, sf') /\
    StringFinder_new (m_text sf) newPattern = Ret sf' /\
    m_text sf' = m_text sf /\ m_pattern sf' = newPattern /\
    table_consistent sf' /\
    search alignments comparisons sf' = Ret (v, sf') /\
    ((newPattern = [] /\ v = -1) \/
     (newPattern <> [] /\ 0 <= v /\ first_match (m_text sf) newPattern (Z.to_nat v)) \/
     (newPattern <> [] /\ v = -1 /\ forall s : nat, ~ matches_at (m_text sf) newPattern s)).
Proof.
  intros Hwf (Htfit & Hpfit & Htidx & Hpidx) [Ha Hc].
  destruct (StringFinder_new_spec (m_text sf) newPattern Hpfit Hpidx)
    as (sf' & Hnew & Ht & Hp & Htbl & Hcons).
  assert (Hpre : badCharacterPreprocessing
                   {| m_text := m_text sf; m_pattern := newPattern;
                      m_lastOccurrences := m_lastOccurrences sf |} = Ret sf').
  { rewrite preprocessing_rebuilds by exact Hwf.
    cbn [m_text m_pattern m_lastOccurrences]. rewrite Htbl, bind_Ret.
    f_equal. apply StringFinder_eq; cbn [m_text m_pattern m_lastOccurrences]; congruence. }
  destruct (search_spec sf') with (alignments := alignments) (comparisons := comparisons)
    as (v & Hv & Hres).
  { rewrite Ht. exact Htfit. } { rewrite Ht. exact Htidx. } { exact Hcons. }
  { rewrite Hp. exact Hpfit. } { rewrite Ht, Hp. exact Ha. } { rewrite Hp. exact Hc. }
  exists v, sf'. unfold search_newPattern, goodSuffixPreprocessing.
  rewrite Hpre, !bind_Ret. rewrite Ht, Hp in Hres.
  split; [exact Hv|]. split; [exact Hnew|]. split; [exact Ht|]. split; [exact Hp|].
  split; [exact Hcons|]. split; [exact Hv|exact Hres].
Qed.

(** ** The properties of the specification *)

Lemma first_match_unique (t p : list ascii) (s s' : nat) :
  first_match t p s -> first_match t p s' -> s = s'.
Proof.
  intros [Hm Hmin] [Hm' Hmin'].
  apply Hmin in Hm'. apply Hmin' in Hm. lia.
Qed.

(** On the inputs where the program is defined, construction succeeds and
    [search()] returns what the specification of a first-match search
    prescribes for the pattern. *)
Lemma construct_and_search (t p : list ascii) (alignments comparisons : nat) :
  defined_on t p -> budget_covers t p alignments comparisons ->
  exists v sf,
    StringFinder_new t p = Ret sf /\ search alignments comparisons sf = Ret (v, sf) /\
    ((p = [] /\ v = -1) \/
     (p <> [] /\ 0 <= v /\ first_match t p (Z.to_nat v)) \/
     (p <> [] /\ v = -1 /\ forall s : nat, ~ matches_at t p s)).
Proof.
  intros (Htfit & Hpfit & Htidx & Hpidx) [Ha Hc].
  destruct (StringFinder_new_spec t p Hpfit Hpidx) as (sf & Hnew & Ht & Hp & _ & Hcons).
  destruct (search_spec sf) with (alignments := alignments) (comparisons := comparisons)
    as (v & Hv & Hres).
  { rewrite Ht. exact Htfit. } { rewrite Ht. exact Htidx. } { exact Hcons. }
  { rewrite Hp. exact Hpfit. } { rewrite Ht, Hp. exact Ha. } { rewrite Hp. exact Hc. }
  exists v, sf. rewrite Ht, Hp in Hres. split; [exact Hnew|]. split; [exact Hv|exact Hres].
Qed.

(** Step 3 of the algorithm, on a constructed object: at an alignment
    whose rightmost mismatch is at pattern index [q], against the text
    character [bad] whose last occurrence in the pattern is [v] (-1 if
    none), the next alignment is [skip + (q - v)] when [q - v >= 1] and
    [skip + 1] otherwise. *)
Theorem bad_character_shift (t p : list ascii) (skip q : nat) (bad : ascii) (v : Z) :
  defined_on t p ->
  (skip + length p <= length t)%nat -> (q < length p)%nat ->
  t !! (skip + q)%nat = Some bad -> p !! q <> Some bad ->
  (forall j : nat, (q < j < length p)%nat -> t !! (skip + j)%nat = p !! j) ->
  last_occurrence p bad v ->
  exists sf, StringFinder_new t p = Ret sf /\
    try_alignment (length p) sf (Z.of_nat (length p)) (Z.of_nat skip)
    = Ret (Shift (Z.of_nat skip + Z.max 1 (Z.of_nat q - v))).
Proof.
  intros (Htfit & Hpfit & Htidx & Hpidx) Hskip Hq Hbad Hmis Hsuffix Hlast.
  destruct (StringFinder_new_spec t p Hpfit Hpidx) as (sf & Hnew & Ht & Hp & _ & Hcons).
  exists sf. split; [exact Hnew|].
  pose proof (try_alignment_shift sf) as Hshift. rewrite Ht, Hp in Hshift.
  apply Hshift with (bad := bad); try assumption; lia.
Qed.

(** C1, as amended: for every text [t] and every non-empty pattern [p] that
    occurs in [t], on the inputs where the program is defined, [search()] on
    the object constructed from [t] and [p] returns the smallest offset [s]
    with [t[s : s+|p|] == p]. *)
Theorem search_returns_first_match (t p : list ascii) (s : nat)
    (alignments comparisons : nat) :
  defined_on t p -> budget_covers t p alignments comparisons ->
  p <> [] -> first_match t p s ->
  exists sf, StringFinder_new t p = Ret sf /\
             search alignments comparisons sf = Ret (Z.of_nat s, sf).
Proof.
  intros Hdef Hbudget Hne Hfirst.
  destruct (construct_and_search t p alignments comparisons Hdef Hbudget)
    as (v & sf & Hnew & Hsearch & [[? _]|[(_ & Hv & Hfm)|(_ & _ & Hnone)]]).
  - contradiction.
  - exists sf. split; [exact Hnew|].
    rewrite (first_match_unique _ _ _ _ Hfirst Hfm), Z2Nat.id by exact Hv.
    exact Hsearch.
  - destruct Hfirst as [Hm _]. apply Hnone in Hm. contradiction.
Qed.

(** C2: for every text [t] and pattern [p] such that [p] is not a substring
    of [t], on the inputs where the program is defined, [search()] returns
    the not-found value -1. *)
Theorem search_reports_absence (t p : list ascii) (alignments comparisons : nat) :
  defined_on t p -> budget_covers t p alignments comparisons ->
  ~ substring_of p t ->
  exists sf, StringFinder_new t p = Ret sf /\
             search alignments comparisons sf = Ret (-1, sf).
Proof.
  intros Hdef Hbudget Habsent.
  destruct (construct_and_search t p alignments comparisons Hdef Hbudget)
    as (v & sf & Hnew & Hsearch & [[_ ->]|[(_ & _ & [Hm _])|(_ & -> & _)]]).
  - exists sf. split; [exact Hnew|exact Hsearch].
  - exfalso. apply Habsent. eexists. exact Hm.
  - exists sf. split; [exact Hnew|exact Hsearch].
Qed.

(** C4: on the object constructed from any text and pattern on which the
    program is defined, every pass of the scan loop at an offset [skip]
    within [0, n - m] ends, after at most [m] character comparisons, with
    the pattern found at [skip] or with the offset advanced by at least 1;
    and [search()] returns within [n - m + 1] alignments of at most [m]
    comparisons each. *)
Theorem scan_advances_and_terminates (t p : list ascii) :
  defined_on t p ->
  exists sf, StringFinder_new t p = Ret sf /\
    (forall skip : nat,
        Z.of_nat skip + Z.of_nat (length p) <= Z.of_nat (length t) ->
        exists r,
          try_alignment (length p) sf (Z.of_nat (length p)) (Z.of_nat skip) = Ret r /\
          match r with
          | Found s => s = Z.of_nat skip
          | Shift skip' => Z.of_nat skip + 1 <= skip'
          end) /\
    exists v,
      search (Z.to_nat (Z.of_nat (length t) - Z.of_nat (length p) + 1)) (length p) sf
      = Ret (v, sf).
Proof.
  intros (Htfit & Hpfit & Htidx & Hpidx).
  destruct (StringFinder_new_spec t p Hpfit Hpidx) as (sf & Hnew & Ht & Hp & _ & Hcons).
  exists sf. split; [exact Hnew|]. split.
  - intros skip Hskip.
    destruct (try_alignment_spec sf) with (skip := skip) (comparisons := length p)
      as (r & Hr & Hspec).
    { rewrite Ht. exact Htfit. } { rewrite Ht. exact Htidx. } { exact Hcons. }
    { rewrite Ht, Hp. exact Hskip. } { rewrite Hp. lia. }
    rewrite Hp in Hr. exists r. split; [exact Hr|].
    destruct r; [tauto|lia].
  - destruct (search_spec sf)
      with (alignments := Z.to_nat (Z.of_nat (length t) - Z.of_nat (length p) + 1))
           (comparisons := length p)
      as (v & Hv & _).
    { rewrite Ht. exact Htfit. } { rewrite Ht. exact Htidx. } { exact Hcons. }
    { rewrite Hp. exact Hpfit. } { rewrite Ht, Hp. lia. } { rewrite Hp. lia. }
    exists v. exact Hv.
Qed.

(** C5: [search(newPattern)], on an object whose text and the new pattern
    are inputs where the program is defined, stores [newPattern] and leaves
    exactly the object that a fresh construction from the text and
    [newPattern] gives, whatever pattern and table the object held before;
    its table is consistent with [newPattern]; the value returned is the
    first-match result for [newPattern], and a plain [search()] that follows
    returns the same value. *)
Theorem search_newPattern_rebuilds (sf : StringFinder) (newPattern : list ascii)
    (alignments comparisons : nat) :
  well_formed sf -> defined_on (m_text sf) newPattern ->
  budget_covers (m_text sf) newPattern alignments comparisons ->
  exists v sf',
    search_newPattern alignments comparisons newPattern sf = Ret (v, sf') /\
    StringFinder_new (m_text sf) newPattern = Ret sf' /\
    m_pattern sf' = newPattern /\
    table_consistent sf' /\
    search alignments comparisons sf' = Ret (v, sf') /\
    ((newPattern = [] /\ v = -1) \/
     (newPattern <> [] /\ 0 <= v /\ first_match (m_text sf) newPattern (Z.to_nat v)) \/
     (newPattern <> [] /\ v = -1 /\ forall s : nat, ~ matches_at (m_text sf) newPattern s)).
Proof.
  intros Hwf Hdef Hbudget.
  destruct (search_newPattern_spec alignments comparisons newPattern sf Hwf Hdef Hbudget)
    as (v & sf' & Hcall & Hnew & _ & Hp & Hcons & Hagain & Hres).
  exists v, sf'. tauto.
Qed.

(** C6: for the empty pattern and every text, the empty text included,
    construction succeeds and [search()] returns -1, whatever the budgets. *)
Theorem search_empty_pattern (t : list ascii) (alignments comparisons : nat) :
  exists sf, StringFinder_new t [] = Ret sf /\
             search alignments comparisons sf = Ret (-1, sf).
Proof.
  destruct (StringFinder_new_spec t []) as (sf & Hnew & _ & Hp & _).
  { unfold fits_int, INT_MAX. simpl. lia. }
  { constructor. }
  exists sf. split; [exact Hnew|]. unfold search. cbv zeta. rewrite Hp. reflexivity.
Qed.

(** C7: for every text [t] and pattern [p] with [|p| > |t|], on the inputs
    where the program is defined, [search()] returns -1; the scan loop is
    not entered, so this holds for every budget. *)
Theorem search_pattern_longer_than_text (t p : list ascii)
    (alignments comparisons : nat) :
  fits_int t -> fits_int p -> Forall indexes_table p ->
  (length t < length p)%nat ->
  exists sf, StringFinder_new t p = Ret sf /\
             search alignments comparisons sf = Ret (-1, sf).
Proof.
  intros Htfit Hpfit Hpidx Hlong.
  destruct (StringFinder_new_spec t p Hpfit Hpidx) as (sf & Hnew & Ht & Hp & _).
  exists sf. split; [exact Hnew|].
  unfold fits_int, INT_MAX in Htfit, Hpfit.
  unfold search. cbv zeta. rewrite Ht, Hp.
  rewrite (to_int_id (Z.of_nat (length t))), (to_int_id (Z.of_nat (length p))),
    (to_int_id (Z.of_nat (length t) - Z.of_nat (length p))) by (unfold INT_MAX; lia).
  rewrite bool_decide_eq_false_2 by lia.
  destruct alignments; cbn [scan]; rewrite bool_decide_eq_false_2 by lia; reflexivity.
Qed.

(** C8: after construction, and after a pattern replacement by
    [search(newPattern)], for every byte value [b] the entry of the table
    for [b] is the highest index of the current pattern that holds [b], or
    -1 if [b] does not occur in it; for patterns (and, for the replacement,
    texts) on which the program is defined. *)
Theorem table_records_last_occurrences (t p : list ascii) :
  fits_int p -> Forall indexes_table p ->
  (exists sf, StringFinder_new t p = Ret sf /\
     forall b : ascii, exists v,
       table_entry sf b = Some v /\ last_occurrence p b v) /\
  (forall (sf0 : StringFinder) (alignments comparisons : nat),
     well_formed sf0 -> m_text sf0 = t ->
     fits_int t -> Forall indexes_table t ->
     budget_covers t p alignments comparisons ->
     exists v sf, search_newPattern alignments comparisons p sf0 = Ret (v, sf) /\
       m_pattern sf = p /\
       forall b : ascii, exists v,
         table_entry sf b = Some v /\ last_occurrence p b v).
Proof.
  intros Hpfit Hpidx. split.
  - destruct (StringFinder_new_spec t p Hpfit Hpidx)
      as (sf & Hnew & _ & Hp & _ & _ & Hcons).
    exists sf. split; [exact Hnew|]. rewrite <- Hp. exact Hcons.
  - intros sf0 alignments comparisons Hwf <- Htfit Htidx Hbudget.
    destruct (search_newPattern_spec alignments comparisons p sf0)
      as (v & sf & Hcall & _ & _ & Hp & [_ Hcons] & _).
    { exact Hwf. } { unfold defined_on. tauto. } { exact Hbudget. }
    exists v, sf. split; [exact Hcall|]. split; [exact Hp|]. rewrite <- Hp. exact Hcons.
Qed.

(** C9: a call of [search()] that returns leaves the object as it found
    it, and a second call made right after it returns the same value. *)
Theorem search_twice_same_value (alignments comparisons : nat)
    (sf sf' : StringFinder) (v : Z) :
  search alignments comparisons sf = Ret (v, sf') ->
  sf' = sf /\ search alignments comparisons sf' = Ret (v, sf').
Proof.
  intros Hcall. pose proof (search_leaves_object _ _ _ _ _ Hcall) as ->.
  split; [reflexivity|exact Hcall].
Qed.

(** C10: neither [search()] nor [search(newPattern)] changes the text:
    after any sequence of calls on a constructed object, the object still
    holds the text supplied at construction; [search()] changes no member,
    and [search(newPattern)] leaves the new pattern in place of the old. *)
Theorem text_is_never_modified (t p : list ascii) (alignments comparisons : nat)
    (ops : list call) (sf0 sf : StringFinder) (vs : list Z) :
  StringFinder_new t p = Ret sf0 ->
  perform_all alignments comparisons ops sf0 = Ret (vs, sf) ->
  m_text sf0 = t /\ m_text sf = t /\
  (forall v sf', search alignments comparisons sf = Ret (v, sf') -> sf' = sf) /\
  (forall newPattern v sf',
      search_newPattern alignments comparisons newPattern sf = Ret (v, sf') ->
      m_text sf' = t /\ m_pattern sf' = newPattern).
Proof.
  intros Hnew Hrun. apply StringFinder_new_text in Hnew as [Ht _].
  assert (Hkeep : m_text sf = m_text sf0).
  { clear Ht. revert sf0 vs Hrun.
    induction ops as [|op ops IH]; intros sf0 vs Hrun; cbn [perform_all] in Hrun.
    - injection Hrun as _ ->. reflexivity.
    - destruct (perform alignments comparisons op sf0) as [[v sf1]| | |] eqn:Hop;
        [|discriminate Hrun..].
      rewrite bind_Ret in Hrun. cbn [fst snd] in Hrun.
      destruct (perform_all alignments comparisons ops sf1) as [[vs' sf2]| | |] eqn:Hrest;
        [|discriminate Hrun..].
      rewrite bind_Ret in Hrun. cbn [fst snd] in Hrun. injection Hrun as _ <-.
      apply perform_keeps_text in Hop. apply IH in Hrest.
      rewrite Hrest. exact Hop. }
  split; [exact Ht|]. split; [rewrite Hkeep; exact Ht|]. split.
  - intros v sf' Hcall. apply search_leaves_object in Hcall. exact Hcall.
  - intros newPattern v sf' Hcall. apply search_newPattern_frame in Hcall as [Htext Hpat].
    split; [rewrite Htext, Hkeep; exact Ht|exact Hpat].
Qed.

(** ** Budgets only bound the loops *)

Lemma to_int_range (z : Z) : - 2 ^ 31 <= to_int z <= INT_MAX.
Proof.
  unfold to_int, INT_MAX.
  pose proof (Z.mod_pos_bound (z + 2 ^ 31) (2 ^ 32)). lia.
Qed.

Lemma compare_backwards_budget (sf : StringFinder) (skip : Z) (comparisons : nat) :
  forall (comparisons' : nat) (p q : Z),
    compare_backwards comparisons sf skip p = Ret q ->
    (comparisons <= comparisons')%nat ->
    compare_backwards comparisons' sf skip p = Ret q.
Proof.
  induction comparisons as [|comparisons IH]; intros comparisons' p q Hrun Hle.
  - cbn [compare_backwards] in Hrun. case_bool_decide as Hp; [discriminate Hrun|].
    destruct comparisons'; cbn [compare_backwards];
      rewrite bool_decide_eq_false_2 by exact Hp; exact Hrun.
  - destruct comparisons' as [|comparisons']; [lia|].
    cbn [compare_backwards] in Hrun |- *. case_bool_decide as Hp; [|exact Hrun].
    destruct (string_at (m_text sf) (to_int (skip + p))) as [a| | |];
      cbn [mbind outcome_mbind outcome_bind] in Hrun |- *; [|discriminate Hrun..].
    destruct (string_at (m_pattern sf) p) as [b| | |];
      cbn [mbind outcome_mbind outcome_bind] in Hrun |- *; [|discriminate Hrun..].
    case_bool_decide as Hab; [exact Hrun|].
    apply IH; [exact Hrun|lia].
Qed.

Lemma try_alignment_budget (sf : StringFinder) (patternSize skip : Z)
    (comparisons comparisons' : nat) (r : alignment_result) :
  try_alignment comparisons sf patternSize skip = Ret r ->
  (comparisons <= comparisons')%nat ->
  try_alignment comparisons' sf patternSize skip = Ret r.
Proof.
  unfold try_alignment. intros Hrun Hle.
  destruct (compare_backwards comparisons sf skip (to_int (patternSize - 1)))
    as [q| | |] eqn:Hq; cbn [mbind outcome_mbind outcome_bind] in Hrun;
    [|discriminate Hrun..].
  rewrite (compare_backwards_budget _ _ _ _ _ _ Hq Hle). exact Hrun.
Qed.

Lemma scan_budget (sf : StringFinder) (patternSize maxSkip : Z)
    (comparisons comparisons' : nat) (alignments : nat) :
  (comparisons <= comparisons')%nat ->
  forall (alignments' : nat) (skip v : Z),
    scan alignments comparisons sf patternSize maxSkip skip = Ret v ->
    (alignments <= alignments')%nat ->
    scan alignments' comparisons' sf patternSize maxSkip skip = Ret v.
Proof.
  intros Hc.
  induction alignments as [|alignments IH]; intros alignments' skip v Hrun Hle.
  - cbn [scan] in Hrun. case_bool_decide as Hguard; [discriminate Hrun|].
    destruct alignments'; cbn [scan];
      rewrite bool_decide_eq_false_2 by exact Hguard; exact Hrun.
  - destruct alignments' as [|alignments']; [lia|].
    cbn [scan] in Hrun |- *. case_bool_decide as Hguard; [|exact Hrun].
    destruct (try_alignment comparisons sf patternSize skip) as [r| | |] eqn:Hr;
      cbn [mbind outcome_mbind outcome_bind] in Hrun; [|discriminate Hrun..].
    rewrite (try_alignment_budget _ _ _ _ _ _ Hr Hc).
    cbn [mbind outcome_mbind outcome_bind].
    destruct r as [s|skip']; [exact Hrun|].
    apply IH; [exact Hrun|lia].
Qed.

Lemma search_budget (sf : StringFinder) (alignments alignments' comparisons comparisons' : nat)
    (r : Z * StringFinder) :
  search alignments comparisons sf = Ret r ->
  (alignments <= alignments')%nat -> (comparisons <= comparisons')%nat ->
  search alignments' comparisons' sf = Ret r.
Proof.
  unfold search. cbv zeta. intros Hrun Ha Hc.
  case_bool_decide as Hempty; [exact Hrun|].
  match type of Hrun with (?x ≫= _) = _ => destruct x as [v| | |] eqn:Hscan end;
    cbn [mbind outcome_mbind outcome_bind] in Hrun; [|discriminate Hrun..].
  rewrite (scan_budget _ _ _ _ _ _ Hc _ _ _ Hscan Ha). exact Hrun.
Qed.

Lemma search_newPattern_budget (sf : StringFinder) (newPattern : list ascii)
    (alignments alignments' comparisons comparisons' : nat) (r : Z * StringFinder) :
  search_newPattern alignments comparisons newPattern sf = Ret r ->
  (alignments <= alignments')%nat -> (comparisons <= comparisons')%nat ->
  search_newPattern alignments' comparisons' newPattern sf = Ret r.
Proof.
  unfold search_newPattern, goodSuffixPreprocessing. intros Hrun Ha Hc.
  destruct (badCharacterPreprocessing _) as [sf1| | |];
    cbn [mbind outcome_mbind outcome_bind] in Hrun |- *; [|discriminate Hrun..].
  exact (search_budget _ _ _ _ _ _ Hrun Ha Hc).
Qed.

(** ** A reported offset is an occurrence, whatever the table holds *)

Lemma compare_backwards_exhausts (sf : StringFinder) (skip : Z) (comparisons : nat) :
  forall p q : Z,
    compare_backwards comparisons sf skip p = Ret q ->
    - 2 ^ 31 <= p <= INT_MAX -> q < 0 ->
    forall j : Z, 0 <= j <= p ->
      exists x, string_at (m_text sf) (to_int (skip + j)) = Ret x /\
                string_at (m_pattern sf) j = Ret x.
Proof.
  induction comparisons as [|comparisons IH]; intros p q Hrun Hp Hq j Hj.
  - cbn [compare_backwards] in Hrun. case_bool_decide; [discriminate Hrun|].
    injection Hrun as <-. lia.
  - cbn [compare_backwards] in Hrun. case_bool_decide as Hp0.
    2: { injection Hrun as <-. lia. }
    destruct (string_at (m_text sf) (to_int (skip + p))) as [a| | |] eqn:Ha;
      cbn [mbind outcome_mbind outcome_bind] in Hrun; [|discriminate Hrun..].
    destruct (string_at (m_pattern sf) p) as [b| | |] eqn:Hb;
      cbn [mbind outcome_mbind outcome_bind] in Hrun; [|discriminate Hrun..].
    case_bool_decide as Hab.
    { injection Hrun as <-. lia. }
    assert (a = b) as -> by (by destruct (decide (a = b))).
    destruct (decide (j = p)) as [->|Hne].
    + exists b. split; [exact Ha|exact Hb].
    + rewrite to_int_id in Hrun by (unfold INT_MAX in *; lia).
      apply (IH (p - 1) q Hrun); [unfold INT_MAX in *; lia|exact Hq|lia].
Qed.

Lemma scan_result (sf : StringFinder) (comparisons : nat) (maxSkip : Z) :
  1 <= Z.of_nat (length (m_pattern sf)) <= INT_MAX ->
  forall (alignments : nat) (skip v : Z),
    scan alignments comparisons sf (Z.of_nat (length (m_pattern sf))) maxSkip skip = Ret v ->
    - 2 ^ 31 <= skip <= INT_MAX ->
    v = -1 \/ (- 2 ^ 31 <= v <= maxSkip /\ all_compared sf v).
Proof.
  intros Hm.
  induction alignments as [|alignments IH]; intros skip v Hrun Hskip.
  - cbn [scan] in Hrun. case_bool_decide; [discriminate Hrun|].
    injection Hrun as <-. by left.
  - cbn [scan] in Hrun. case_bool_decide as Hguard.
    2: { injection Hrun as <-. by left. }
    unfold try_alignment in Hrun.
    destruct (compare_backwards comparisons sf skip _) as [q| | |] eqn:Hq;
      cbn [mbind outcome_mbind outcome_bind] in Hrun; [|discriminate Hrun..].
    rewrite to_int_id in Hq by (unfold INT_MAX in *; lia).
    case_bool_decide as Hq0.
    + cbn [mbind outcome_mbind outcome_bind] in Hrun. injection Hrun as <-.
      right. split; [lia|]. intros j Hj.
      apply (compare_backwards_exhausts _ _ _ _ _ Hq);
        [unfold INT_MAX in *; lia|exact Hq0|lia].
    + destruct (string_at (m_text sf) (to_int (skip + q))) as [bad| | |];
        cbn [mbind outcome_mbind outcome_bind] in Hrun; [|discriminate Hrun..].
      destruct (table_get (m_lastOccurrences sf) (int_of_char bad)) as [last| | |];
        cbn [mbind outcome_mbind outcome_bind] in Hrun; [|discriminate Hrun..].
      cbv zeta in Hrun.
      case_bool_decide; cbn [mbind outcome_mbind outcome_bind] in Hrun;
        apply IH in Hrun; try exact Hrun; apply to_int_range.
Qed.

Lemma string_at_inside (s : list ascii) (i : Z) (x : ascii) :
  string_at s i = Ret x -> i < Z.of_nat (length s) ->
  0 <= i /\ s !! Z.to_nat i = Some x.
Proof.
  unfold string_at. case_bool_decide as Hneg; [discriminate|].
  intros Hat Hlt. split; [lia|].
  destruct (s !! Z.to_nat i) as [c|] eqn:Hc.
  - by injection Hat as ->.
  - apply lookup_ge_None_1 in Hc. lia.
Qed.

Lemma all_compared_matches (sf : StringFinder) (v : Z) :
  fits_int (m_text sf) -> m_pattern sf <> [] ->
  - 2 ^ 31 <= v ->
  v <= Z.of_nat (length (m_text sf)) - Z.of_nat (length (m_pattern sf)) ->
  all_compared sf v ->
  0 <= v /\ matches_at (m_text sf) (m_pattern sf) (Z.to_nat v).
Proof.
  intros Hfit Hne Hlo Hhi Hall. unfold fits_int, INT_MAX in Hfit.
  assert (Hm : 1 <= Z.of_nat (length (m_pattern sf))).
  { destruct (m_pattern sf); [done|]. rewrite length_cons. lia. }
  assert (Hv : 0 <= v).
  { destruct (Hall 0 ltac:(lia)) as (x & Hx & _).
    rewrite to_int_id in Hx by (unfold INT_MAX; lia).
    apply string_at_inside in Hx; lia. }
  split; [exact Hv|]. apply matches_at_lookup. intros j Hj.
  destruct (Hall (Z.of_nat j) ltac:(lia)) as (x & Hx & Hy).
  rewrite to_int_id in Hx by (unfold INT_MAX; lia).
  apply string_at_inside in Hx as [_ Hx]; [|lia].
  apply string_at_inside in Hy as [_ Hy]; [|lia].
  rewrite Nat2Z.id in Hy. rewrite Hy, <- Hx. f_equal. lia.
Qed.

(** Whatever its table holds, [search()] never reports an offset at which
    the pattern does not occur: it returns -1, or an offset within
    [0, n - m] at which the pattern matches the text. *)
Theorem search_reports_only_occurrences (alignments comparisons : nat)
    (sf sf' : StringFinder) (v : Z) :
  fits_int (m_text sf) -> fits_int (m_pattern sf) ->
  search alignments comparisons sf = Ret (v, sf') ->
  v = -1 \/
  (0 <= v /\
   v + Z.of_nat (length (m_pattern sf)) <= Z.of_nat (length (m_text sf)) /\
   matches_at (m_text sf) (m_pattern sf) (Z.to_nat v)).
Proof.
  intros Htfit Hpfit. pose proof Htfit as Htfit'. pose proof Hpfit as Hpfit'.
  unfold fits_int, INT_MAX in Htfit', Hpfit'. unfold search. cbv zeta.
  rewrite (to_int_id (Z.of_nat (length (m_text sf)))),
    (to_int_id (Z.of_nat (length (m_pattern sf)))),
    (to_int_id (Z.of_nat (length (m_text sf)) - Z.of_nat (length (m_pattern sf))))
    by (unfold INT_MAX; lia).
  case_bool_decide as Hempty.
  - intros [= <- _]. by left.
  - intros Hrun.
    match type of Hrun with (?x ≫= _) = _ => destruct x as [r| | |] eqn:Hscan end;
      cbn [mbind outcome_mbind outcome_bind] in Hrun; [|discriminate Hrun..].
    injection Hrun as -> _.
    apply scan_result in Hscan; [|unfold INT_MAX; lia|unfold INT_MAX; lia].
    destruct Hscan as [->|[[Hlo Hhi] Hall]]; [by left|right].
    assert (Hne : m_pattern sf <> []).
    { intros Heq. rewrite Heq in Hempty. by apply Hempty. }
    destruct (all_compared_matches sf v Htfit Hne Hlo Hhi Hall) as [Hv Hm].
    split; [exact Hv|]. split; [lia|exact Hm].
Qed.

(** ** Boyer-Moore against the naive search *)

Lemma naive_scan_spec (t p : list ascii) (candidates : nat) :
  forall s : nat,
    (forall s' : nat, (s' < s)%nat -> ~ matches_at t p s') ->
    (0 <= naive_scan t p s candidates /\
     first_match t p (Z.to_nat (naive_scan t p s candidates))) \/
    (naive_scan t p s candidates = -1 /\
     forall s' : nat, (s' < s + candidates)%nat -> ~ matches_at t p s').
Proof.
  induction candidates as [|candidates IH]; intros s Hbefore.
  - right. split; [reflexivity|]. intros s' Hs'. apply Hbefore. lia.
  - cbn [naive_scan]. case_bool_decide as Hm.
    + left. split; [lia|]. rewrite Nat2Z.id. split; [exact Hm|].
      intros s' Hs'. destruct (decide (s <= s')%nat) as [Hle|Hgt]; [exact Hle|].
      exfalso. apply (Hbefore s'); [lia|exact Hs'].
    + destruct (IH (S s)) as [Hfound|[Hnone Hall]].
      * intros s' Hs'. destruct (decide (s' = s)) as [->|Hne]; [exact Hm|].
        apply Hbefore. lia.
      * left. exact Hfound.
      * right. split; [exact Hnone|]. intros s' Hs'. apply Hall. lia.
Qed.

Lemma naive_search_spec (t p : list ascii) :
  p <> [] ->
  (0 <= naive_search t p /\ first_match t p (Z.to_nat (naive_search t p))) \/
  (naive_search t p = -1 /\ forall s : nat, ~ matches_at t p s).
Proof.
  intros Hne. unfold naive_search. rewrite bool_decide_eq_false_2 by exact Hne.
  destruct (naive_scan_spec t p (length t + 1 - length p) 0%nat) as [Hfound|[Hnone Hall]].
  - intros s' Hs'. lia.
  - left. exact Hfound.
  - right. split; [exact Hnone|]. intros s Hs.
    pose proof (matches_at_fits _ _ _ Hne Hs) as Hfits.
    apply (Hall s); [|exact Hs].
    destruct p; [done|]. rewrite length_cons in *. lia.
Qed.

(** The three cases of a first-match search are the naive search's. *)
Lemma first_match_result_is_naive (t p : list ascii) (v : Z) :
  (p = [] /\ v = -1) \/
  (p <> [] /\ 0 <= v /\ first_match t p (Z.to_nat v)) \/
  (p <> [] /\ v = -1 /\ forall s : nat, ~ matches_at t p s) ->
  v = naive_search t p.
Proof.
  intros [[-> ->]|[(Hne & Hv & Hfirst)|(Hne & -> & Hnone)]].
  - reflexivity.
  - destruct (naive_search_spec t p Hne) as [[Hn Hfirst']|[_ Hnone]].
    + pose proof (first_match_unique _ _ _ _ Hfirst Hfirst'). lia.
    + destruct Hfirst as [Hm _]. by apply Hnone in Hm.
  - destruct (naive_search_spec t p Hne) as [[_ [Hm _]]|[-> _]].
    + by apply Hnone in Hm.
    + reflexivity.
Qed.

Lemma search_is_naive (t p : list ascii) (alignments comparisons : nat) :
  defined_on t p -> budget_covers t p alignments comparisons ->
  exists sf, StringFinder_new t p = Ret sf /\
             search alignments comparisons sf = Ret (naive_search t p, sf).
Proof.
  intros Hdef Hbudget.
  destruct (construct_and_search t p alignments comparisons Hdef Hbudget)
    as (v & sf & Hnew & Hsearch & Hres).
  exists sf. split; [exact Hnew|].
  rewrite <- (first_match_result_is_naive t p v Hres). exact Hsearch.
Qed.

(** On the inputs where the program is defined, [search()] returns what
    the naive search returns: the alignments that the bad-character rule
    steps over hold no occurrence. *)
Theorem search_refines_naive_search (t p : list ascii) (alignments comparisons : nat) :
  defined_on t p -> budget_covers t p alignments comparisons ->
  exists sf, StringFinder_new t p = Ret sf /\
             search alignments comparisons sf = Ret (naive_search t p, sf).
Proof. exact (search_is_naive t p alignments comparisons). Qed.

(** A text that is searched for itself is found at offset 0, by one
    alignment. *)
Theorem search_whole_text (t : list ascii) :
  t <> [] -> fits_int t -> Forall indexes_table t ->
  exists sf, StringFinder_new t t = Ret sf /\ search 1 (length t) sf = Ret (0, sf).
Proof.
  intros Hne Hfit Hidx.
  destruct (construct_and_search t t 1 (length t))
    as (v & sf & Hnew & Hsearch & [[? _]|[(_ & Hv & Hfirst)|(_ & _ & Hnone)]]).
  - unfold defined_on. tauto.
  - unfold budget_covers. lia.
  - contradiction.
  - exists sf. split; [exact Hnew|].
    assert (Hzero : matches_at t t 0).
    { unfold matches_at. rewrite drop_0. apply firstn_all. }
    destruct Hfirst as [_ Hmin]. apply Hmin in Hzero.
    replace v with 0 in Hsearch by lia. exact Hsearch.
  - exfalso. apply (Hnone 0%nat). unfold matches_at. rewrite drop_0. apply firstn_all.
Qed.

Lemma matches_at_app (t u p : list ascii) (s : nat) :
  (s + length p <= length t)%nat ->
  matches_at (t ++ u) p s <-> matches_at t p s.
Proof.
  intros Hfits. rewrite !matches_at_lookup.
  split; intros Hm j Hj; specialize (Hm j Hj).
  - rewrite lookup_app_l in Hm by lia. exact Hm.
  - rewrite lookup_app_l by lia. exact Hm.
Qed.

Lemma first_match_app (t u p : list ascii) (s : nat) :
  p <> [] -> first_match t p s -> first_match (t ++ u) p s.
Proof.
  intros Hne [Hm Hmin]. pose proof (matches_at_fits _ _ _ Hne Hm) as Hfits.
  split.
  - apply matches_at_app; assumption.
  - intros s' Hs'. destruct (decide (s <= s')%nat) as [Hle|Hgt]; [exact Hle|].
    apply Hmin. apply (matches_at_app t u p s'); [lia|exact Hs'].
Qed.

(** An offset that [search()] finds stays the result when characters are
    appended to the text. *)
Theorem search_stable_when_text_grows (t u p : list ascii)
    (alignments comparisons alignments' comparisons' : nat)
    (sf : StringFinder) (v : Z) :
  defined_on (t ++ u) p ->
  StringFinder_new t p = Ret sf -> search alignments comparisons sf = Ret (v, sf) ->
  0 <= v ->
  budget_covers (t ++ u) p alignments' comparisons' ->
  exists sf', StringFinder_new (t ++ u) p = Ret sf' /\
              search alignments' comparisons' sf' = Ret (v, sf').
Proof.
  intros (Htufit & Hpfit & Htuidx & Hpidx) Hnew Hsearch Hv Hbudget.
  assert (Hdef : defined_on t p).
  { apply Forall_app in Htuidx as [Htidx _].
    unfold defined_on, fits_int in *. rewrite length_app in Htufit.
    repeat split; try assumption. lia. }
  destruct (search_is_naive t p (alignments + S (length t)) (comparisons + length p) Hdef)
    as (sf0 & Hnew0 & Hsearch0).
  { unfold budget_covers. lia. }
  rewrite Hnew in Hnew0. injection Hnew0 as <-.
  rewrite (search_budget _ _ _ _ _ _ Hsearch) in Hsearch0 by lia.
  injection Hsearch0 as Hnaive.
  assert (Hne : p <> []).
  { intros ->. unfold naive_search in Hnaive.
    rewrite bool_decide_eq_true_2 in Hnaive by reflexivity. lia. }
  destruct (naive_search_spec t p Hne) as [[_ Hfirst]|[Hnone _]]; [|lia].
  rewrite <- Hnaive in Hfirst.
  destruct (construct_and_search (t ++ u) p alignments' comparisons')
    as (v' & sf' & Hnew' & Hsearch' & [[? _]|[(_ & Hv' & Hfirst')|(_ & _ & Hnone)]]).
  - unfold defined_on. tauto.
  - exact Hbudget.
  - contradiction.
  - exists sf'. split; [exact Hnew'|].
    pose proof (first_match_unique _ _ _ _ (first_match_app t u p _ Hne Hfirst) Hfirst').
    replace v with v' by lia. exact Hsearch'.
  - exfalso. destruct (first_match_app t u p _ Hne Hfirst) as [Hm _].
    by apply Hnone in Hm.
Qed.

(** A run that finds an offset, with whatever budget, has found the first
    occurrence. *)
Lemma found_is_first_match (t p : list ascii) (alignments comparisons : nat)
    (sf : StringFinder) (v : Z) :
  defined_on t p ->
  StringFinder_new t p = Ret sf -> search alignments comparisons sf = Ret (v, sf) ->
  0 <= v ->
  p <> [] /\ first_match t p (Z.to_nat v).
Proof.
  intros Hdef Hnew Hsearch Hv.
  destruct (search_is_naive t p (alignments + S (length t)) (comparisons + length p) Hdef)
    as (sf0 & Hnew0 & Hsearch0).
  { unfold budget_covers. lia. }
  rewrite Hnew in Hnew0. injection Hnew0 as <-.
  rewrite (search_budget _ _ _ _ _ _ Hsearch) in Hsearch0 by lia.
  injection Hsearch0 as Hnaive.
  assert (Hne : p <> []).
  { intros ->. unfold naive_search in Hnaive.
    rewrite bool_decide_eq_true_2 in Hnaive by reflexivity. lia. }
  split; [exact Hne|].
  destruct (naive_search_spec t p Hne) as [[_ Hfirst]|[Hnone _]]; [|lia].
  rewrite <- Hnaive in Hfirst. exact Hfirst.
Qed.

Lemma matches_at_prepend (u t p : list ascii) (s : nat) :
  matches_at t p s -> matches_at (u ++ t) p (length u + s).
Proof.
  rewrite !matches_at_lookup. intros Hm j Hj.
  rewrite lookup_app_r by lia. rewrite <- (Hm j Hj). f_equal. lia.
Qed.

Lemma matches_at_prefix (t p q : list ascii) (s : nat) :
  matches_at t (p ++ q) s -> matches_at t p s.
Proof.
  rewrite !matches_at_lookup. intros Hm j Hj.
  rewrite Hm by (rewrite length_app; lia). by rewrite lookup_app_l.
Qed.

(** Prepending characters to the text moves a found offset by no more than
    their number: the pattern is then found at or before the old
    occurrence. *)
Theorem search_after_text_is_prepended (u t p : list ascii)
    (alignments comparisons alignments' comparisons' : nat)
    (sf : StringFinder) (v : Z) :
  defined_on (u ++ t) p ->
  StringFinder_new t p = Ret sf -> search alignments comparisons sf = Ret (v, sf) ->
  0 <= v ->
  budget_covers (u ++ t) p alignments' comparisons' ->
  exists sf' v', StringFinder_new (u ++ t) p = Ret sf' /\
                 search alignments' comparisons' sf' = Ret (v', sf') /\
                 0 <= v' <= Z.of_nat (length u) + v.
Proof.
  intros Hdef' Hnew Hsearch Hv Hbudget.
  assert (Hdef : defined_on t p).
  { destruct Hdef' as (Hfit & Hpfit & Hidx & Hpidx).
    apply Forall_app in Hidx as [_ Htidx].
    unfold defined_on, fits_int in *. rewrite length_app in Hfit.
    repeat split; try assumption. lia. }
  destruct (found_is_first_match t p alignments comparisons sf v Hdef Hnew Hsearch Hv)
    as [Hne [Hm _]].
  apply (matches_at_prepend u) in Hm.
  destruct (construct_and_search (u ++ t) p alignments' comparisons' Hdef' Hbudget)
    as (v' & sf' & Hnew' & Hsearch' & [[? _]|[(_ & Hv' & [_ Hmin])|(_ & _ & Hnone)]]).
  - contradiction.
  - exists sf', v'. split; [exact Hnew'|]. split; [exact Hsearch'|].
    apply Hmin in Hm. lia.
  - exfalso. by apply Hnone in Hm.
Qed.

(** A pattern is found no later than any pattern it is a prefix of. *)
Theorem search_prefix_found_no_later (t p q : list ascii)
    (alignments comparisons alignments' comparisons' : nat) :
  defined_on t (p ++ q) -> p <> [] ->
  budget_covers t p alignments comparisons ->
  budget_covers t (p ++ q) alignments' comparisons' ->
  exists sf sf' v v',
    StringFinder_new t p = Ret sf /\ search alignments comparisons sf = Ret (v, sf) /\
    StringFinder_new t (p ++ q) = Ret sf' /\
    search alignments' comparisons' sf' = Ret (v', sf') /\
    (0 <= v' -> 0 <= v <= v').
Proof.
  intros Hdef' Hne Hbudget Hbudget'.
  assert (Hdef : defined_on t p).
  { destruct Hdef' as (Hfit & Hpfit & Hidx & Hpidx).
    apply Forall_app in Hpidx as [Hpidx _].
    unfold defined_on, fits_int in *. rewrite length_app in Hpfit.
    repeat split; try assumption. lia. }
  destruct (construct_and_search t p alignments comparisons Hdef Hbudget)
    as (v & sf & Hnew & Hsearch & Hres).
  destruct (construct_and_search t (p ++ q) alignments' comparisons' Hdef' Hbudget')
    as (v' & sf' & Hnew' & Hsearch' & Hres').
  exists sf, sf', v, v'.
  split; [exact Hnew|]. split; [exact Hsearch|].
  split; [exact Hnew'|]. split; [exact Hsearch'|].
  intros Hv'.
  destruct Hres' as [[_ ->]|[(_ & _ & [Hm' _])|(_ & -> & _)]]; [lia| |lia].
  apply matches_at_prefix in Hm'.
  destruct Hres as [[? _]|[(_ & Hv & [_ Hmin])|(_ & _ & Hnone)]].
  - contradiction.
  - apply Hmin in Hm'. lia.
  - exfalso. by apply Hnone in Hm'.
Qed.

(** ** Sequences of calls *)

Lemma StringFinder_new_consistent (t p : list ascii) (sf : StringFinder) :
  fits_int p -> Forall indexes_table p ->
  StringFinder_new t p = Ret sf ->
  m_text sf = t /\ m_pattern sf = p /\ table_consistent sf.
Proof.
  intros Hfit Hidx Hnew.
  destruct (StringFinder_new_spec t p Hfit Hidx) as (sf' & Hnew' & Ht & Hp & _ & Hcons).
  rewrite Hnew in Hnew'. injection Hnew' as <-. tauto.
Qed.

Lemma perform_all_naive (t : list ascii) (alignments comparisons : nat) :
  fits_int t -> Forall indexes_table t ->
  Z.of_nat (length t) + 1 <= Z.of_nat alignments ->
  forall (ops : list call) (p : list ascii) (sf0 : StringFinder),
    fits_int p -> Forall indexes_table p -> (length p <= comparisons)%nat ->
    Forall (call_defined comparisons) ops ->
    StringFinder_new t p = Ret sf0 ->
    exists sf,
      perform_all alignments comparisons ops sf0 = Ret (naive_results t p ops, sf) /\
      StringFinder_new t (last_pattern p ops) = Ret sf.
Proof.
  intros Htfit Htidx Ha.
  induction ops as [|op ops IH]; intros p sf0 Hpfit Hpidx Hpc Hops Hnew.
  - exists sf0. split; [reflexivity|exact Hnew].
  - apply Forall_cons in Hops as [Hop Hops].
    destruct op as [|newPattern].
    + destruct (search_is_naive t p alignments comparisons) as (sf' & Hnew' & Hsearch).
      { unfold defined_on. tauto. }
      { unfold budget_covers. lia. }
      rewrite Hnew in Hnew'. injection Hnew' as <-.
      destruct (IH p sf0 Hpfit Hpidx Hpc Hops Hnew) as (sf & Hrest & Hlast).
      exists sf. split; [|exact Hlast].
      cbn [perform_all perform naive_results last_pattern].
      rewrite Hsearch, bind_Ret. cbn [fst snd]. rewrite Hrest, bind_Ret. reflexivity.
    + destruct Hop as (Hqfit & Hqidx & Hqc).
      destruct (StringFinder_new_consistent t p sf0 Hpfit Hpidx Hnew)
        as (Ht & _ & [Hwf _]).
      destruct (search_newPattern_spec alignments comparisons newPattern sf0)
        as (v & sf1 & Hcall & Hnew1 & _ & _ & _ & _ & Hres).
      { exact Hwf. }
      { rewrite Ht. unfold defined_on. tauto. }
      { rewrite Ht. unfold budget_covers. lia. }
      rewrite Ht in Hnew1, Hres.
      rewrite (first_match_result_is_naive t newPattern v Hres) in Hcall.
      destruct (IH newPattern sf1 Hqfit Hqidx Hqc Hops Hnew1) as (sf & Hrest & Hlast).
      exists sf. split; [|exact Hlast].
      cbn [perform_all perform naive_results last_pattern].
      rewrite Hcall, bind_Ret. cbn [fst snd]. rewrite Hrest, bind_Ret. reflexivity.
Qed.

(** Calls compose: on a constructed object, any sequence of [search()] and
    [search(newPattern)] calls returns, call by call, what a naive search
    of the text for the pattern then in force returns, and leaves the
    object that a fresh construction with the last pattern gives: no call
    depends on the calls before it, beyond the pattern they left. *)
Theorem calls_return_naive_results (t p : list ascii) (ops : list call)
    (alignments comparisons : nat) :
  defined_on t p -> (length p <= comparisons)%nat ->
  Z.of_nat (length t) + 1 <= Z.of_nat alignments ->
  Forall (call_defined comparisons) ops ->
  exists sf0 sf,
    StringFinder_new t p = Ret sf0 /\
    perform_all alignments comparisons ops sf0 = Ret (naive_results t p ops, sf) /\
    StringFinder_new t (last_pattern p ops) = Ret sf.
Proof.
  intros (Htfit & Hpfit & Htidx & Hpidx) Hpc Ha Hops.
  destruct (StringFinder_new_spec t p Hpfit Hpidx) as (sf0 & Hnew & _).
  destruct (perform_all_naive t alignments comparisons Htfit Htidx Ha
              ops p sf0 Hpfit Hpidx Hpc Hops Hnew) as (sf & Hrun & Hlast).
  exists sf0, sf. split; [exact Hnew|]. split; [exact Hrun|exact Hlast].
Qed.

(** ** Preprocessing *)

Lemma table_set_length (tbl tbl' : list Z) (i v : Z) :
  table_set tbl i v = Ret tbl' -> length tbl' = length tbl.
Proof.
  unfold table_set. case_bool_decide; [|discriminate].
  destruct (tbl !! Z.to_nat i); [|discriminate].
  intros [= <-]. apply length_insert.
Qed.

Lemma built_table_length (pattern : list ascii) (tbl : list Z) :
  built_table pattern = Ret tbl -> length tbl = Z.to_nat POSSIBLE_CHARACTERS.
Proof.
  unfold built_table.
  assert (Hloop : forall (n : nat) (i : Z) (start tbl' : list Z),
             for_loop n i
               (fun i tbl => c ← string_at pattern i; table_set tbl (int_of_char c) i)
               start = Ret tbl' ->
             length tbl' = length start).
  { induction n as [|n IH]; intros i start tbl' Hrun; cbn [for_loop] in Hrun.
    - by injection Hrun as ->.
    - destruct (string_at pattern i) as [c| | |];
        cbn [mbind outcome_mbind outcome_bind] in Hrun; [|discriminate Hrun..].
      destruct (table_set start (int_of_char c) i) as [tbl1| | |] eqn:Hset;
        cbn [mbind outcome_mbind outcome_bind] in Hrun; [|discriminate Hrun..].
      apply IH in Hrun. rewrite Hrun. by apply table_set_length in Hset. }
  intros Hrun. apply Hloop in Hrun. rewrite Hrun. apply length_replicate.
Qed.

(** [badCharacterPreprocessing] is idempotent: on an object it has
    processed, it changes nothing. *)
Theorem preprocessing_is_idempotent (sf sf' : StringFinder) :
  well_formed sf ->
  badCharacterPreprocessing sf = Ret sf' ->
  badCharacterPreprocessing sf' = Ret sf'.
Proof.
  intros Hwf Hrun. rewrite (preprocessing_rebuilds _ Hwf) in Hrun.
  destruct (built_table (m_pattern sf)) as [tbl| | |] eqn:Htbl;
    cbn [mbind outcome_mbind outcome_bind] in Hrun; [|discriminate Hrun..].
  injection Hrun as <-.
  rewrite preprocessing_rebuilds.
  - cbn [m_text m_pattern m_lastOccurrences]. rewrite Htbl. reflexivity.
  - unfold well_formed. cbn [m_lastOccurrences]. by apply built_table_length in Htbl.
Qed.

Lemma record_loop_out_of_bounds (pattern : list ascii) :
  fits_int pattern ->
  forall (n i : nat) (tbl : list Z),
    (i + n)%nat = length pattern ->
    length tbl = Z.to_nat POSSIBLE_CHARACTERS ->
    Exists (fun c => ~ indexes_table c) (drop i pattern) ->
    exists c, c ∈ pattern /\ ~ indexes_table c /\
      for_loop n (Z.of_nat i)
        (fun i tbl => c ← string_at pattern i; table_set tbl (int_of_char c) i) tbl
      = TableOutOfBounds (int_of_char c).
Proof.
  intros Hfit. unfold fits_int, INT_MAX in Hfit.
  induction n as [|n IH]; intros i tbl Hin Hlen Hbad.
  - rewrite drop_ge in Hbad by lia. by apply Exists_nil in Hbad.
  - destruct (lookup_lt_is_Some_2 pattern i) as [c Hc]; [lia|].
    rewrite (drop_S _ _ _ Hc) in Hbad.
    cbn [for_loop]. rewrite (string_at_lookup _ _ _ Hc), bind_Ret.
    destruct (decide (indexes_table c)) as [Hidx|Hidx].
    + apply Exists_cons in Hbad as [Hbad|Hbad]; [contradiction|].
      pose proof (indexes_table_code c Hidx) as Hcode.
      unfold indexes_table in Hidx. rewrite Hcode in Hidx |- *.
      rewrite table_set_insert; [|exact Hidx|].
      2: { rewrite Hlen. unfold POSSIBLE_CHARACTERS in *. lia. }
      rewrite bind_Ret, to_int_id by (unfold INT_MAX; lia).
      replace (Z.of_nat i + 1) with (Z.of_nat (S i)) by lia.
      apply IH; [lia|by rewrite length_insert|exact Hbad].
    + exists c. split; [by eapply list_elem_of_lookup_2|]. split; [exact Hidx|].
      unfold table_set. unfold indexes_table in Hidx.
      rewrite bool_decide_eq_false_2 by exact Hidx. reflexivity.
Qed.

(** Construction is defined exactly for the patterns whose characters all
    index the table within its bounds; for any other pattern it runs into
    an access of the table outside [0, 256). *)
Theorem construction_defined_iff (t p : list ascii) :
  fits_int p ->
  ((exists sf, StringFinder_new t p = Ret sf) <-> Forall indexes_table p) /\
  (~ Forall indexes_table p ->
   exists i, ~ 0 <= i < POSSIBLE_CHARACTERS /\
             StringFinder_new t p = TableOutOfBounds i).
Proof.
  intros Hfit.
  assert (Hundefined : ~ Forall indexes_table p ->
            exists i, ~ 0 <= i < POSSIBLE_CHARACTERS /\
                      StringFinder_new t p = TableOutOfBounds i).
  { intros Hbad. apply not_Forall_Exists in Hbad; [|apply _].
    destruct (record_loop_out_of_bounds p Hfit (length p) 0%nat
                (replicate (Z.to_nat POSSIBLE_CHARACTERS) (-1)))
      as (c & _ & Hc & Hloop).
    { reflexivity. } { apply length_replicate. } { exact Hbad. }
    exists (int_of_char c). split; [exact Hc|].
    unfold StringFinder_new. rewrite preprocessing_rebuilds by apply length_replicate.
    cbn [m_pattern]. unfold built_table.
    change (Z.of_nat 0) with 0 in Hloop. rewrite Hloop. reflexivity. }
  split; [|exact Hundefined]. split.
  - intros [sf Hnew]. destruct (decide (Forall indexes_table p)) as [Hall|Hbad]; [exact Hall|].
    destruct (Hundefined Hbad) as (i & _ & Hout). rewrite Hnew in Hout. discriminate Hout.
  - intros Hidx. destruct (StringFinder_new_spec t p Hfit Hidx) as (sf & Hnew & _).
    by exists sf.
Qed.

(** ** The best case of the scan *)

Lemma try_alignment_absent_char (sf : StringFinder) (skip : nat) (bad : ascii) :
  fits_int (m_text sf) -> Forall indexes_table (m_text sf) -> table_consistent sf ->
  m_pattern sf <> [] ->
  Z.of_nat skip + Z.of_nat (length (m_pattern sf)) <= Z.of_nat (length (m_text sf)) ->
  m_text sf !! (skip + length (m_pattern sf) - 1)%nat = Some bad ->
  bad ∉ m_pattern sf ->
  try_alignment 1 sf (Z.of_nat (length (m_pattern sf))) (Z.of_nat skip)
  = Ret (Shift (Z.of_nat skip + Z.of_nat (length (m_pattern sf)))).
Proof.
  intros Hfit Hidx [Hwf Htbl] Hne Hskip Hbad Habsent.
  unfold fits_int, INT_MAX in Hfit.
  assert (Hm : 1 <= Z.of_nat (length (m_pattern sf))).
  { destruct (m_pattern sf); [done|]. rewrite length_cons. lia. }
  destruct (lookup_lt_is_Some_2 (m_pattern sf) (length (m_pattern sf) - 1))
    as [lastc Hlastc]; [lia|].
  assert (Hdiff : bad <> lastc).
  { intros ->. apply Habsent. by eapply list_elem_of_lookup_2. }
  assert (Hat : string_at (m_text sf)
                  (to_int (Z.of_nat skip + (Z.of_nat (length (m_pattern sf)) - 1)))
                = Ret bad).
  { rewrite to_int_id by (unfold INT_MAX; lia).
    replace (Z.of_nat skip + (Z.of_nat (length (m_pattern sf)) - 1))
      with (Z.of_nat (skip + length (m_pattern sf) - 1)) by lia.
    by apply string_at_lookup. }
  unfold try_alignment.
  rewrite (to_int_id (Z.of_nat (length (m_pattern sf)) - 1)) by (unfold INT_MAX; lia).
  cbn [compare_backwards]. rewrite bool_decide_eq_true_2 by lia.
  rewrite Hat, bind_Ret.
  replace (Z.of_nat (length (m_pattern sf)) - 1)
    with (Z.of_nat (length (m_pattern sf) - 1)) at 1 by lia.
  rewrite (string_at_lookup _ _ _ Hlastc), bind_Ret.
  rewrite bool_decide_eq_true_2 by exact Hdiff.
  rewrite bind_Ret, bool_decide_eq_false_2 by lia.
  rewrite Hat, bind_Ret.
  assert (Hbadidx : indexes_table bad) by (eapply Forall_lookup_1; eauto).
  destruct (Htbl bad) as (v & Hv & Hlast). unfold table_entry in Hv.
  assert (v = -1) as ->.
  { destruct Hlast as [[-> _]|(_ & Hin & _)]; [reflexivity|].
    exfalso. apply Habsent. by eapply list_elem_of_lookup_2. }
  rewrite (indexes_table_code _ Hbadidx).
  rewrite (table_get_lookup _ _ (-1)); [|apply char_code_range|exact Hv].
  rewrite bind_Ret. cbv zeta.
  rewrite (to_int_id (Z.of_nat (length (m_pattern sf)) - 1 - -1)) by (unfold INT_MAX; lia).
  rewrite bool_decide_eq_true_2 by lia.
  rewrite to_int_id by (unfold INT_MAX; lia).
  do 2 f_equal. lia.
Qed.

Lemma scan_disjoint (sf : StringFinder) :
  fits_int (m_text sf) -> Forall indexes_table (m_text sf) -> table_consistent sf ->
  m_pattern sf <> [] ->
  (forall c : ascii, c ∈ m_text sf -> c ∉ m_pattern sf) ->
  forall (alignments skip : nat),
    Z.of_nat skip <= Z.of_nat (length (m_text sf)) ->
    Z.of_nat (length (m_text sf)) - Z.of_nat (length (m_pattern sf)) - Z.of_nat skip
      < Z.of_nat alignments * Z.of_nat (length (m_pattern sf)) ->
    scan alignments 1 sf (Z.of_nat (length (m_pattern sf)))
      (Z.of_nat (length (m_text sf)) - Z.of_nat (length (m_pattern sf))) (Z.of_nat skip)
    = Ret (-1).
Proof.
  intros Hfit Hidx Hcons Hne Hdisjoint.
  induction alignments as [|alignments IH]; intros skip Hskip Hcost.
  - cbn [scan]. rewrite bool_decide_eq_false_2 by lia. reflexivity.
  - cbn [scan]. case_bool_decide as Hguard; [|reflexivity].
    destruct (lookup_lt_is_Some_2 (m_text sf) (skip + length (m_pattern sf) - 1))
      as [bad Hbad].
    { destruct (m_pattern sf); [done|]. rewrite length_cons in *. lia. }
    rewrite (try_alignment_absent_char sf skip bad); try assumption.
    + rewrite bind_Ret.
      replace (Z.of_nat skip + Z.of_nat (length (m_pattern sf)))
        with (Z.of_nat (skip + length (m_pattern sf))) by lia.
      apply IH; lia.
    + lia.
    + apply Hdisjoint. by eapply list_elem_of_lookup_2.
Qed.

(** The best case: when no character of the text occurs in the pattern,
    every alignment ends at its first comparison and the scan moves on by
    the whole length of the pattern, so [search()] returns -1 within
    [n / m] alignments of one comparison each. *)
Theorem search_disjoint_is_sublinear (t p : list ascii) :
  defined_on t p -> p <> [] ->
  (forall c : ascii, c ∈ t -> c ∉ p) ->
  exists sf, StringFinder_new t p = Ret sf /\
    search (Z.to_nat (Z.of_nat (length t) / Z.of_nat (length p))) 1 sf = Ret (-1, sf).
Proof.
  intros (Htfit & Hpfit & Htidx & Hpidx) Hne Hdisjoint.
  destruct (StringFinder_new_spec t p Hpfit Hpidx) as (sf & Hnew & Ht & Hp & _ & Hcons).
  exists sf. split; [exact Hnew|].
  assert (Hm : 1 <= Z.of_nat (length p)).
  { destruct p; [exfalso; apply Hne; reflexivity|]. rewrite length_cons. lia. }
  pose proof (scan_disjoint sf) as Hscan. rewrite Ht, Hp in Hscan.
  specialize (Hscan Htfit Htidx Hcons Hne Hdisjoint
                (Z.to_nat (Z.of_nat (length t) / Z.of_nat (length p))) 0%nat).
  unfold fits_int, INT_MAX in Htfit, Hpfit.
  unfold search. cbv zeta. rewrite Ht, Hp.
  rewrite (to_int_id (Z.of_nat (length t))), (to_int_id (Z.of_nat (length p))),
    (to_int_id (Z.of_nat (length t) - Z.of_nat (length p))) by (unfold INT_MAX; lia).
  rewrite bool_decide_eq_false_2 by lia.
  change (Z.of_nat 0) with 0 in Hscan. rewrite Hscan.
  - reflexivity.
  - lia.
  - pose proof (Z.div_mod (Z.of_nat (length t)) (Z.of_nat (length p)) ltac:(lia)).
    pose proof (Z.mod_pos_bound (Z.of_nat (length t)) (Z.of_nat (length p)) ltac:(lia)).
    pose proof (Z.div_pos (Z.of_nat (length t)) (Z.of_nat (length p)) ltac:(lia) ltac:(lia)).
    rewrite Z2Nat.id by lia. lia.
Qed.

(** ** [max] *)

(** [max] returns the least upper bound of its arguments, and it is one
    of them. *)
Theorem max_is_least_upper_bound (a b : Z) :
  (a <= max a b /\ b <= max a b) /\
  (max a b = a \/ max a b = b) /\
  (forall c : Z, a <= c -> b <= c -> max a b <= c).
Proof.
  unfold max. case_bool_decide; repeat split; try lia; auto.
Qed.

(** ** Where the program is defined *)

Lemma indexes_table_when (c : ascii) :
  char_signed = false \/ char_code c < 128 -> indexes_table c.
Proof.
  unfold indexes_table, int_of_char, POSSIBLE_CHARACTERS.
  pose proof (char_code_range c).
  intros [->|Hlow]; [simpl; lia|].
  rewrite (bool_decide_eq_false_2 (128 <= char_code c)) by lia.
  rewrite andb_false_r. lia.
Qed.

(** Where plain [char] is unsigned, and on 7-bit texts and patterns where
    it is signed, construction and [search()] are defined for all lengths
    that fit an [int], and [search()] returns the naive search's result. *)
Theorem search_defined_on_unsigned_or_ascii (t p : list ascii)
    (alignments comparisons : nat) :
  char_signed = false \/ Forall (fun c => char_code c < 128) (t ++ p) ->
  fits_int t -> fits_int p -> budget_covers t p alignments comparisons ->
  exists sf, StringFinder_new t p = Ret sf /\
             search alignments comparisons sf = Ret (naive_search t p, sf).
Proof.
  intros Hchars Htfit Hpfit Hbudget.
  apply search_is_naive; [|exact Hbudget].
  assert (Hidx : Forall indexes_table (t ++ p)).
  { apply Forall_forall. intros c Hc. apply indexes_table_when.
    destruct Hchars as [Hunsigned|Hascii]; [by left|right].
    by apply (proj1 (Forall_forall _ _) Hascii). }
  apply Forall_app in Hidx as [Htidx Hpidx].
  unfold defined_on. tauto.
Qed.

(** ** The worst case of the scan *)

Section WorstCase.

(** The text [aa...a] of length [n] and the pattern [baa...a] of length
    [k + 1]: every alignment is compared down to its first character and
    moved on by one. *)
Variables (a b : ascii) (n k : nat).
Hypothesis a_not_b : a <> b.
Hypothesis a_indexes : indexes_table a.
Hypothesis b_indexes : indexes_table b.
Hypothesis n_fits : Z.of_nat n <= INT_MAX.
Hypothesis pattern_fits_text : (S k <= n)%nat.

Variable sf : StringFinder.
Hypothesis sf_text : m_text sf = replicate n a.
Hypothesis sf_pattern : m_pattern sf = b :: replicate k a.
Hypothesis sf_consistent : table_consistent sf.

Lemma worst_text_fits : fits_int (m_text sf).
Proof. unfold fits_int. rewrite sf_text, length_replicate. exact n_fits. Qed.

Lemma worst_text_indexes : Forall indexes_table (m_text sf).
Proof. rewrite sf_text. apply Forall_replicate. exact a_indexes. Qed.

Lemma worst_text_lookup (i : nat) : (i < n)%nat -> m_text sf !! i = Some a.
Proof. intros Hi. rewrite sf_text. by apply lookup_replicate_2. Qed.

Lemma worst_pattern_lookup (j : nat) :
  (0 < j <= k)%nat -> m_pattern sf !! j = Some a.
Proof.
  intros Hj. rewrite sf_pattern. destruct j as [|j]; [lia|].
  cbn [lookup list_lookup]. apply lookup_replicate_2. lia.
Qed.

Lemma worst_alignment (skip comparisons : nat) :
  (skip + S k <= n)%nat -> (S k <= comparisons)%nat ->
  try_alignment comparisons sf (Z.of_nat (S k)) (Z.of_nat skip)
  = Ret (Shift (Z.of_nat (S skip))).
Proof.
  intros Hskip Hc.
  destruct sf_consistent as [_ Htbl]. destruct (Htbl a) as (v & _ & Hlast).
  assert (Hlen : length (m_pattern sf) = S k).
  { rewrite sf_pattern, length_cons, length_replicate. reflexivity. }
  assert (Hv : -1 <= v) by (destruct Hlast as [[-> _]|(Hv & _)]; lia).
  pose proof (try_alignment_shift sf worst_text_fits worst_text_indexes sf_consistent
                skip comparisons 0%nat a v) as Hshift.
  rewrite sf_text, length_replicate, Hlen in Hshift.
  rewrite Hshift.
  - do 2 f_equal. lia.
  - lia.
  - exact Hc.
  - lia.
  - rewrite <- sf_text. apply worst_text_lookup. lia.
  - rewrite sf_pattern. cbn [lookup list_lookup]. congruence.
  - intros j Hj. rewrite <- sf_text, worst_text_lookup, worst_pattern_lookup by lia.
    reflexivity.
  - exact Hlast.
Qed.

(** The scan from [skip] needs exactly the [n - k - skip] alignments that
    are left. *)
Lemma worst_scan (comparisons : nat) :
  (S k <= comparisons)%nat ->
  forall (alignments skip : nat),
    (skip + k <= n)%nat ->
    scan alignments comparisons sf (Z.of_nat (S k)) (Z.of_nat n - Z.of_nat (S k))
      (Z.of_nat skip)
    = if decide (n - k - skip <= alignments)%nat then Ret (-1) else OutOfBudget.
Proof.
  intros Hc.
  induction alignments as [|alignments IH]; intros skip Hskip.
  - cbn [scan]. case_bool_decide; case_decide; try reflexivity; lia.
  - cbn [scan]. case_bool_decide as Hguard.
    + rewrite worst_alignment by lia. rewrite bind_Ret, IH by lia.
      repeat case_decide; try reflexivity; lia.
    + case_decide; [reflexivity|lia].
Qed.

(** With fewer than [k + 1] comparisons the first alignment is not
    finished. *)
Lemma worst_comparisons (skip : nat) :
  (skip + S k <= n)%nat ->
  forall (comparisons p : nat),
    (comparisons <= p <= k)%nat ->
    compare_backwards comparisons sf (Z.of_nat skip) (Z.of_nat p) = OutOfBudget.
Proof.
  intros Hskip. pose proof n_fits as Hfit. unfold INT_MAX in Hfit.
  induction comparisons as [|comparisons IH]; intros p Hp.
  - cbn [compare_backwards]. rewrite bool_decide_eq_true_2 by lia. reflexivity.
  - cbn [compare_backwards]. rewrite bool_decide_eq_true_2 by lia.
    rewrite (to_int_id (Z.of_nat skip + Z.of_nat p)) by (unfold INT_MAX; lia).
    replace (Z.of_nat skip + Z.of_nat p) with (Z.of_nat (skip + p)) by lia.
    rewrite (string_at_lookup (m_text sf) (skip + p) a) by (apply worst_text_lookup; lia).
    rewrite bind_Ret.
    rewrite (string_at_lookup (m_pattern sf) p a) by (apply worst_pattern_lookup; lia).
    rewrite bind_Ret, bool_decide_eq_false_2 by (intros Hne; by apply Hne).
    rewrite to_int_id by (unfold INT_MAX; lia).
    replace (Z.of_nat p - 1) with (Z.of_nat (p - 1)) by lia.
    apply IH. lia.
Qed.

Lemma worst_search :
  search (n - k) (S k) sf = Ret (-1, sf) /\
  (forall alignments : nat,
      (alignments < n - k)%nat -> search alignments (S k) sf = OutOfBudget) /\
  (forall comparisons : nat,
      (comparisons < S k)%nat -> search (n - k) comparisons sf = OutOfBudget).
Proof.
  pose proof n_fits as Hfit. unfold INT_MAX in Hfit.
  assert (Hsearch : forall alignments comparisons : nat,
             search alignments comparisons sf =
             (r ← scan alignments comparisons sf (Z.of_nat (S k))
                    (Z.of_nat n - Z.of_nat (S k)) (Z.of_nat 0);
              Ret (r, sf))).
  { intros alignments comparisons. unfold search. cbv zeta.
    rewrite sf_text, sf_pattern, length_replicate, length_cons, length_replicate.
    rewrite (to_int_id (Z.of_nat n)), (to_int_id (Z.of_nat (S k))),
      (to_int_id (Z.of_nat n - Z.of_nat (S k))) by (unfold INT_MAX; lia).
    rewrite bool_decide_eq_false_2 by lia. reflexivity. }
  split; [|split].
  - rewrite Hsearch, worst_scan by lia.
    rewrite decide_True by lia. reflexivity.
  - intros alignments Ha. rewrite Hsearch, worst_scan by lia.
    rewrite decide_False by lia. reflexivity.
  - intros comparisons Hc. rewrite Hsearch.
    destruct (n - k)%nat as [|alignments] eqn:Hnk; [lia|].
    cbn [scan]. rewrite bool_decide_eq_true_2 by lia.
    unfold try_alignment.
    rewrite (to_int_id (Z.of_nat (S k) - 1)) by (unfold INT_MAX; lia).
    replace (Z.of_nat (S k) - 1) with (Z.of_nat k) by lia.
    rewrite (worst_comparisons 0%nat) by lia. reflexivity.
Qed.

End WorstCase.

(** The bound of [n - m + 1] alignments of [m] comparisons is attained:
    for the text [aa...a] of length [n] and the pattern [baa...a] of
    length [m = k + 1], [search()] returns -1 with exactly that budget,
    and runs out of budget with one alignment or one comparison less. *)
Theorem search_worst_case_is_attained (a b : ascii) (n k : nat) :
  a <> b -> indexes_table a -> indexes_table b ->
  Z.of_nat n <= INT_MAX -> (S k <= n)%nat ->
  exists sf, StringFinder_new (replicate n a) (b :: replicate k a) = Ret sf /\
    search (n - k) (S k) sf = Ret (-1, sf) /\
    (forall alignments : nat,
        (alignments < n - k)%nat -> search alignments (S k) sf = OutOfBudget) /\
    (forall comparisons : nat,
        (comparisons < S k)%nat -> search (n - k) comparisons sf = OutOfBudget).
Proof.
  intros Hab Ha Hb Hn Hk.
  destruct (StringFinder_new_spec (replicate n a) (b :: replicate k a))
    as (sf & Hnew & Ht & Hp & _ & Hcons).
  { unfold fits_int. rewrite length_cons, length_replicate. lia. }
  { apply Forall_cons. split; [exact Hb|]. apply Forall_replicate. exact Ha. }
  exists sf. split; [exact Hnew|].
  exact (worst_search a b n k Hab Ha Hn Hk sf Ht Hp Hcons).
Qed.

(** The table that a construction builds is a function of the pattern
    alone: the text has no part in it, also where the construction is
    undefined. *)
Theorem table_depends_on_pattern_only (t t' p : list ascii) :
  (sf ← StringFinder_new t p; Ret (m_lastOccurrences sf)) =
  (sf ← StringFinder_new t' p; Ret (m_lastOccurrences sf)).
Proof.
  unfold StringFinder_new, goodSuffixPreprocessing.
  rewrite !preprocessing_rebuilds by apply length_replicate.
  cbn [m_text m_pattern].
  destruct (built_table p); reflexivity.
Qed.

End Model.

(** ** Concrete runs *)

(** Where plain [char] is unsigned, every character indexes the table
    within its bounds, so the program is defined on all inputs whose lengths
    fit an [int]. *)
Lemma unsigned_char_indexes_table (c : ascii) : indexes_table false c.
Proof.
  unfold indexes_table, int_of_char, POSSIBLE_CHARACTERS. simpl.
  apply char_code_range.
Qed.

Lemma defined_on_unsigned (t p : list ascii) :
  fits_int t -> fits_int p -> defined_on false t p.
Proof.
  intros Ht Hp. repeat split; try assumption;
    apply Forall_forall; intros c _;
    unfold indexes_table, int_of_char, POSSIBLE_CHARACTERS; simpl;
    apply char_code_range.
Qed.

(** Where plain [char] is signed, the characters that index the table
    within its bounds are those below 128. *)
Lemma signed_char_indexes_table (c : ascii) :
  indexes_table true c <-> char_code c < 128.
Proof.
  unfold indexes_table, int_of_char, POSSIBLE_CHARACTERS. simpl.
  pose proof (char_code_range c). case_bool_decide; lia.
Qed.

(** C3 fails where plain [char] is signed: the byte 0xFF promotes to -1,
    so [badCharacterPreprocessing] writes [m_lastOccurrences[-1]] for a
    pattern that holds it, and [search()] reads [m_lastOccurrences[-1]] when
    it is the bad character of the text. *)
Theorem high_byte_indexes_outside_table :
  int_of_char true byte_FF = -1 /\
  StringFinder_new true [] [byte_FF] = TableOutOfBounds (-1) /\
  exists sf, StringFinder_new true [byte_FF] (chars "a") = Ret sf /\
             search true 1 1 sf = TableOutOfBounds (-1).
Proof.
  split; [reflexivity|]. split; [vm_compute; reflexivity|].
  exists_constructed. vm_compute. reflexivity.
Qed.

(** C1 as stated fails for the empty pattern: it occurs in the text "1",
    first at offset 0, and [search()] returns -1, as [main()] asserts for
    its object [s1]. *)
Lemma empty_pattern_occurs_but_is_not_found :
  defined_on true (chars "1") [] /\ budget_covers (chars "1") [] 2 0 /\
  first_match (chars "1") [] 0 /\
  exists sf, StringFinder_new true (chars "1") [] = Ret sf /\
             search true 2 0 sf = Ret (-1, sf) /\
             Ret (-1, sf) <> Ret (Z.of_nat 0, sf).
Proof.
  split; [by_evaluation|]. split; [unfold budget_covers; simpl; lia|].
  split; [split; [reflexivity|intros; lia]|].
  exists_constructed. split; [vm_compute; reflexivity|]. intros [= Hv].
Qed.


(** Where plain [char] is signed, every pattern that holds a byte of 128
    or more makes the constructor write the table at a negative index. *)
Theorem signed_char_pattern_with_high_byte (t p : list ascii) (c : ascii) :
  fits_int p -> c ∈ p -> 128 <= char_code c ->
  exists i, -128 <= i < 0 /\ StringFinder_new true t p = TableOutOfBounds i.
Proof.
  intros Hfit Hin Hhigh.
  destruct (record_loop_out_of_bounds true p Hfit (length p) 0%nat
              (replicate (Z.to_nat POSSIBLE_CHARACTERS) (-1)))
    as (c' & _ & Hc' & Hloop).
  { reflexivity. }
  { apply length_replicate. }
  { rewrite drop_0. apply Exists_exists. exists c. split; [exact Hin|].
    rewrite signed_char_indexes_table. lia. }
  exists (int_of_char true c'). split.
  - rewrite signed_char_indexes_table in Hc'. pose proof (char_code_range c').
    unfold int_of_char. simpl. rewrite bool_decide_eq_true_2 by lia. lia.
  - unfold StringFinder_new. rewrite preprocessing_rebuilds by apply length_replicate.
    cbn [m_pattern]. unfold built_table.
    change (Z.of_nat 0) with 0 in Hloop. rewrite Hloop. reflexivity.
Qed.

(** ** [main()] *)

Lemma declare_Ret (s : StringFinder) (rest : StringFinder -> main_result) :
  declare (Ret s) rest = rest s.
Proof. reflexivity. Qed.

Lemma assert_returns_pass (v : Z) (s : StringFinder) (rest : StringFinder -> main_result) :
  assert_returns (Ret (v, s)) v rest = rest s.
Proof. unfold assert_returns. by rewrite bool_decide_eq_true_2. Qed.

(** One statement of [main()]: the declaration or the call is evaluated
    (the call within 29 alignments and 10 comparisons), and the result
    carries over to the budgets at hand. *)
Ltac main_statement Ha Hc :=
  lazymatch goal with
  | |- declare ?new _ = _ =>
      let o := eval vm_compute in new in
      lazymatch o with
      | Ret ?s =>
          replace new with (@Ret StringFinder s) by (vm_compute; reflexivity);
          rewrite declare_Ret; cbv beta
      end
  | |- assert_returns (search ?sgn ?a ?c ?sf) _ _ = _ =>
      let o := eval vm_compute in (search sgn 29%nat 10%nat sf) in
      lazymatch o with
      | Ret ?r =>
          let Hrun := fresh "Hrun" in
          assert (Hrun : search sgn 29%nat 10%nat sf = Ret r) by (vm_compute; reflexivity);
          rewrite (search_budget sgn sf 29%nat a 10%nat c r Hrun Ha Hc);
          clear Hrun; rewrite assert_returns_pass; cbv beta
      end
  | |- assert_returns (search_newPattern ?sgn ?a ?c ?p ?sf) _ _ = _ =>
      let o := eval vm_compute in (search_newPattern sgn 29%nat 10%nat p sf) in
      lazymatch o with
      | Ret ?r =>
          let Hrun := fresh "Hrun" in
          assert (Hrun : search_newPattern sgn 29%nat 10%nat p sf = Ret r)
            by (vm_compute; reflexivity);
          rewrite (search_newPattern_budget sgn sf p 29%nat a 10%nat c r Hrun Ha Hc);
          clear Hrun; rewrite assert_returns_pass; cbv beta
      end
  end.

(** [main()] passes every assertion and prints its line, whether plain
    [char] is signed or not, once the loops are given 29 alignments of 10
    comparisons: no search of [main()] needs more, though its longest text
    has 76 characters. *)
Theorem main_passes (char_signed : bool) (alignments comparisons : nat) :
  (29 <= alignments)%nat -> (10 <= comparisons)%nat ->
  main char_signed alignments comparisons = Printed ALL_TESTS_PASSED.
Proof.
  intros Ha Hc. unfold main. cbv zeta beta.
  destruct char_signed; do 19 main_statement Ha Hc; reflexivity.
Qed.

(** ** The theorems at concrete inputs *)


Lemma search_returns_first_match_witness :
  first_match (chars "a student") (chars "stud") 2 /\
  exists sf, StringFinder_new true (chars "a student") (chars "stud") = Ret sf /\
             search true 6 4 sf = Ret (2, sf).
Proof.
  assert (Hfirst : first_match (chars "a student") (chars "stud") 2).
  { split; [reflexivity|].
    intros [|[|s']] Hm; [vm_compute in Hm; discriminate Hm..|lia]. }
  split; [exact Hfirst|].
  apply (search_returns_first_match true (chars "a student") (chars "stud") 2 6 4).
  - by_evaluation.
  - unfold budget_covers; simpl; lia.
  - discriminate.
  - exact Hfirst.
Defined.

Lemma search_reports_absence_witness :
  ~ substring_of (chars "c") (chars "ab") /\
  exists sf, StringFinder_new true (chars "ab") (chars "c") = Ret sf /\
             search true 2 1 sf = Ret (-1, sf).
Proof.
  assert (Habsent : ~ substring_of (chars "c") (chars "ab")).
  { intros [[|[|[|s]]] Hm]; vm_compute in Hm; discriminate Hm. }
  split; [exact Habsent|].
  apply (search_reports_absence true (chars "ab") (chars "c") 2 1).
  - by_evaluation.
  - unfold budget_covers; simpl; lia.
  - exact Habsent.
Defined.

Lemma scan_advances_and_terminates_witness :
  exists sf, StringFinder_new true (chars "abcab") (chars "cab") = Ret sf /\
    (forall skip : nat,
        Z.of_nat skip + 3 <= 5 ->
        exists r, try_alignment true 3 sf 3 (Z.of_nat skip) = Ret r /\
          match r with
          | Found s => s = Z.of_nat skip
          | Shift skip' => Z.of_nat skip + 1 <= skip'
          end) /\
    exists v, search true 3 3 sf = Ret (v, sf).
Proof.
  apply (scan_advances_and_terminates true (chars "abcab") (chars "cab")).
  by_evaluation.
Defined.

Lemma search_newPattern_rebuilds_witness :
  exists v sf',
    search_newPattern true 1 1 (chars "1") stale_finder = Ret (v, sf') /\
    StringFinder_new true (chars "1") (chars "1") = Ret sf' /\
    search true 1 1 sf' = Ret (v, sf').
Proof.
  destruct (search_newPattern_rebuilds true stale_finder (chars "1") 1 1)
    as (v & sf' & Hcall & Hnew & _ & _ & Hagain & _).
  - reflexivity.
  - by_evaluation.
  - unfold budget_covers; simpl; lia.
  - exists v, sf'. split; [exact Hcall|]. split; [exact Hnew|exact Hagain].
Defined.

Lemma search_pattern_longer_than_text_witness :
  exists sf, StringFinder_new true (chars "1") (chars "Not here") = Ret sf /\
             search true 0 0 sf = Ret (-1, sf).
Proof.
  apply (search_pattern_longer_than_text true (chars "1") (chars "Not here") 0 0).
  - by_evaluation.
  - by_evaluation.
  - by_evaluation.
  - simpl. lia.
Defined.

Lemma table_records_last_occurrences_witness :
  exists sf, StringFinder_new true (chars "banana") (chars "ana") = Ret sf /\
    forall b : ascii, exists v,
      table_entry sf b = Some v /\ last_occurrence (chars "ana") b v.
Proof.
  apply (table_records_last_occurrences true (chars "banana") (chars "ana")).
  - by_evaluation.
  - by_evaluation.
Defined.

Lemma search_twice_same_value_witness :
  one_finder = one_finder /\ search true 1 1 one_finder = Ret (0, one_finder).
Proof.
  apply (search_twice_same_value true 1 1 one_finder one_finder 0).
  vm_compute. reflexivity.
Defined.

Lemma text_is_never_modified_witness :
  exists sf0 sf vs,
    StringFinder_new true (chars "1") (chars "zz") = Ret sf0 /\
    perform_all true 1 8 [Search; SearchNew (chars "1"); SearchNew (chars "Not here")] sf0
    = Ret (vs, sf) /\
    m_text sf = chars "1".
Proof.
  lazymatch eval vm_compute in (StringFinder_new true (chars "1") (chars "zz")) with
  | Ret ?sf0 =>
      lazymatch eval vm_compute in
        (perform_all true 1 8
           [Search; SearchNew (chars "1"); SearchNew (chars "Not here")] sf0) with
      | Ret (?vs, ?sf) =>
          exists sf0, sf, vs;
          assert (Hnew : StringFinder_new true (chars "1") (chars "zz") = Ret sf0)
            by (vm_compute; reflexivity);
          assert (Hrun : perform_all true 1 8
                    [Search; SearchNew (chars "1"); SearchNew (chars "Not here")] sf0
                  = Ret (vs, sf))
            by (vm_compute; reflexivity);
          split; [exact Hnew|]; split; [exact Hrun|];
          exact (proj1 (proj2 (text_is_never_modified true (chars "1") (chars "zz") 1 8
                                 _ sf0 sf vs Hnew Hrun)))
      end
  end.
Defined.

Lemma bad_character_shift_witness :
  exists sf, StringFinder_new true (chars "babcab") (chars "cab") = Ret sf /\
             try_alignment true 3 sf 3 0 = Ret (Shift 1).
Proof.
  apply (bad_character_shift true (chars "babcab") (chars "cab") 0 0 "b" 2).
  - by_evaluation.
  - simpl. lia.
  - simpl. lia.
  - reflexivity.
  - discriminate.
  - intros [|[|[|j]]] Hj; try reflexivity; simpl in Hj; lia.
  - right. split; [lia|]. split; [reflexivity|].
    intros [|[|[|j]]] Hj; simpl; try lia; discriminate Hj.
Defined.

Lemma search_reports_only_occurrences_witness :
  search true 3 3 mismatched_finder = Ret (2, mismatched_finder) /\
  (2 = -1 \/
   (0 <= 2 /\ 2 + 3 <= 5 /\ matches_at (chars "abcab") (chars "cab") (Z.to_nat 2))).
Proof.
  assert (Hrun : search true 3 3 mismatched_finder = Ret (2, mismatched_finder))
    by (vm_compute; reflexivity).
  split; [exact Hrun|].
  apply (search_reports_only_occurrences true 3 3 mismatched_finder mismatched_finder 2).
  - unfold fits_int, INT_MAX. simpl. lia.
  - unfold fits_int, INT_MAX. simpl. lia.
  - exact Hrun.
Defined.

Lemma search_refines_naive_search_witness :
  naive_search (chars "banana") (chars "nan") = 2 /\
  exists sf, StringFinder_new true (chars "banana") (chars "nan") = Ret sf /\
             search true 4 3 sf = Ret (naive_search (chars "banana") (chars "nan"), sf).
Proof.
  split; [reflexivity|].
  apply (search_refines_naive_search true (chars "banana") (chars "nan") 4 3).
  - by_evaluation.
  - unfold budget_covers; simpl; lia.
Defined.

Lemma search_whole_text_witness :
  exists sf, StringFinder_new true (chars "banana") (chars "banana") = Ret sf /\
             search true 1 6 sf = Ret (0, sf).
Proof.
  apply (search_whole_text true (chars "banana")).
  - discriminate.
  - unfold fits_int, INT_MAX. simpl. lia.
  - by_evaluation.
Defined.

Lemma search_stable_when_text_grows_witness :
  exists sf', StringFinder_new true (chars "ab" ++ chars "cab") (chars "b") = Ret sf' /\
              search true 5 1 sf' = Ret (1, sf').
Proof.
  lazymatch eval vm_compute in (StringFinder_new true (chars "ab") (chars "b")) with
  | Ret ?sf =>
      apply (search_stable_when_text_grows true (chars "ab") (chars "cab") (chars "b")
               2 1 5 1 sf 1);
      [ by_evaluation
      | vm_compute; reflexivity
      | vm_compute; reflexivity
      | lia
      | unfold budget_covers; simpl; lia ]
  end.
Defined.

Lemma calls_return_naive_results_witness :
  naive_results (chars "1") [] [Search; SearchNew (chars "1"); SearchNew (chars "Not here")]
  = [-1; 0; -1] /\
  exists sf0 sf,
    StringFinder_new true (chars "1") [] = Ret sf0 /\
    perform_all true 2 8 [Search; SearchNew (chars "1"); SearchNew (chars "Not here")] sf0
    = Ret (naive_results (chars "1") []
             [Search; SearchNew (chars "1"); SearchNew (chars "Not here")], sf) /\
    StringFinder_new true (chars "1")
      (last_pattern [] [Search; SearchNew (chars "1"); SearchNew (chars "Not here")])
    = Ret sf.
Proof.
  split; [reflexivity|].
  apply (calls_return_naive_results true (chars "1") []
           [Search; SearchNew (chars "1"); SearchNew (chars "Not here")] 2 8).
  - by_evaluation.
  - simpl. lia.
  - simpl. lia.
  - by_evaluation.
Defined.

Lemma preprocessing_is_idempotent_witness :
  exists sf', badCharacterPreprocessing true stale_finder = Ret sf' /\
              badCharacterPreprocessing true sf' = Ret sf'.
Proof.
  lazymatch eval vm_compute in (badCharacterPreprocessing true stale_finder) with
  | Ret ?sf' =>
      exists sf';
      assert (Hrun : badCharacterPreprocessing true stale_finder = Ret sf')
        by (vm_compute; reflexivity);
      split; [exact Hrun|];
      exact (preprocessing_is_idempotent true stale_finder sf' eq_refl Hrun)
  end.
Defined.

Lemma construction_defined_iff_witness :
  exists i, ~ 0 <= i < POSSIBLE_CHARACTERS /\
            StringFinder_new true [] [byte_FF] = TableOutOfBounds i.
Proof.
  apply (construction_defined_iff true [] [byte_FF]).
  - unfold fits_int, INT_MAX. simpl. lia.
  - by_evaluation.
Defined.

Lemma search_disjoint_is_sublinear_witness :
  exists sf, StringFinder_new true (chars "aaaaaaaa") (chars "xyz") = Ret sf /\
             search true 2 1 sf = Ret (-1, sf).
Proof.
  apply (search_disjoint_is_sublinear true (chars "aaaaaaaa") (chars "xyz")).
  - by_evaluation.
  - discriminate.
  - apply Forall_forall. by_evaluation.
Defined.

Lemma search_defined_on_unsigned_or_ascii_witness :
  exists sf, StringFinder_new false [byte_FF; byte_FF] [byte_FF] = Ret sf /\
             search false 2 1 sf = Ret (naive_search [byte_FF; byte_FF] [byte_FF], sf).
Proof.
  apply (search_defined_on_unsigned_or_ascii false [byte_FF; byte_FF] [byte_FF] 2 1).
  - left. reflexivity.
  - unfold fits_int, INT_MAX. simpl. lia.
  - unfold fits_int, INT_MAX. simpl. lia.
  - unfold budget_covers; simpl; lia.
Defined.

Lemma signed_char_pattern_with_high_byte_witness :
  exists i, -128 <= i < 0 /\
            StringFinder_new true (chars "a") (chars "a" ++ [byte_FF]) = TableOutOfBounds i.
Proof.
  apply (signed_char_pattern_with_high_byte (chars "a") (chars "a" ++ [byte_FF]) byte_FF).
  - unfold fits_int, INT_MAX. simpl. lia.
  - by_evaluation.
  - vm_compute. discriminate.
Defined.

Lemma main_passes_witness : main true 29 10 = Printed ALL_TESTS_PASSED.
Proof. apply (main_passes true 29 10); lia. Defined.

Lemma search_worst_case_is_attained_witness :
  exists sf, StringFinder_new true (replicate 5 "a"%char) ("b"%char :: replicate 1 "a"%char)
             = Ret sf /\
    search true (5 - 1) 2 sf = Ret (-1, sf) /\
    (forall alignments : nat,
        (alignments < 5 - 1)%nat -> search true alignments 2 sf = OutOfBudget) /\
    (forall comparisons : nat,
        (comparisons < 2)%nat -> search true (5 - 1) comparisons sf = OutOfBudget).
Proof.
  apply (search_worst_case_is_attained true "a" "b" 5 1).
  - discriminate.
  - by_evaluation.
  - by_evaluation.
  - unfold INT_MAX. simpl. lia.
  - lia.
Defined.

Lemma search_after_text_is_prepended_witness :
  exists sf' v', StringFinder_new true (chars "ab" ++ chars "cab") (chars "ab") = Ret sf' /\
                 search true 4 2 sf' = Ret (v', sf') /\
                 0 <= v' <= Z.of_nat (length (chars "ab")) + 1.
Proof.
  lazymatch eval vm_compute in (StringFinder_new true (chars "cab") (chars "ab")) with
  | Ret ?sf =>
      apply (search_after_text_is_prepended true (chars "ab") (chars "cab") (chars "ab")
               2 2 4 2 sf 1);
      [ by_evaluation
      | vm_compute; reflexivity
      | vm_compute; reflexivity
      | lia
      | unfold budget_covers; simpl; lia ]
  end.
Defined.

Lemma search_prefix_found_no_later_witness :
  exists sf sf' v v',
    StringFinder_new true (chars "banana") (chars "an") = Ret sf /\
    search true 5 2 sf = Ret (v, sf) /\
    StringFinder_new true (chars "banana") (chars "an" ++ chars "a") = Ret sf' /\
    search true 4 3 sf' = Ret (v', sf') /\
    (0 <= v' -> 0 <= v <= v').
Proof.
  apply (search_prefix_found_no_later true (chars "banana") (chars "an") (chars "a") 5 2 4 3).
  - by_evaluation.
  - discriminate.
  - unfold budget_covers; simpl; lia.
  - unfold budget_covers; simpl; lia.
Defined.
